(** * Realtime collaborative app: the synchronisation core

    A shallow embedding of the client-side reconciliation code of the
    whiteboard ([Whiteboard.tsx]), of the chat panel ([Chat.tsx], with
    [services/api.ts], [services/socket.ts] and [hooks/useSocket.ts]) and of
    the relay described for the backend, followed by the properties of the
    synchronisation protocol.

    Conventions of the embedding:
    - a React state cell is a field of a state record; an event handler is a
      function from the rendered state to the next state and the list of
      effects it performs, in program order;
    - [Date.now()], [Math.random()], the answer to a [confirm] dialog and the
      outcome of a [fetch] are inputs of the handler that reads them;
    - a JavaScript [number] that the code tests or merely carries (a
      coordinate, a width) is an IEEE 754 binary64 value ([float]); a clock
      reading and a byte count are integers ([Z]); a [Map<string, _>] is a
      [gmap string _]; an optional field is an [option];
    - console logging is not part of the model; of canvas painting, the
      redraw effect is ([Whiteboard.redraw]). *)

From Stdlib Require Import PrimFloat ZArith.
From stdpp Require Import gmap strings list pretty.

Open Scope Z_scope.

(** ** JavaScript truthiness *)

Module Js.

(** [0], [-0] and [NaN] are the falsy numbers. *)
Definition truthy_number (n : float) : bool :=
  negb (PrimFloat.eqb n 0%float) && PrimFloat.eqb n n.

(** The empty string is the falsy string. *)
Definition truthy_string (s : string) : bool :=
  match s with
  | EmptyString => false
  | String _ _ => true
  end.

(** An absent ([undefined]) field is falsy. *)
Definition truthy_opt {A : Type} (t : A → bool) (o : option A) : bool :=
  match o with
  | Some a => t a
  | None => false
  end.

End Js.

(** ** Whiteboard.tsx *)

Module Whiteboard.

Record Point := { x : float; y : float }.

Module Stroke.
Record t := mk {
  id : string;
  points : list Point;
  color : string;
  width : float;
  timestamp : Z
}.
End Stroke.

(** The [type] tag of a drawing event: ['start' | 'draw' | 'end']. *)
Inductive DrawingType := type_start | type_draw | type_end.

Module DrawingEvent.
Record t := mk {
  type : DrawingType;
  strokeId : string;
  point : option Point;
  color : option string;
  width : option float
}.
End DrawingEvent.

(** The state cells of the component. *)
Record State := {
  isDrawing : bool;
  currentColor : string;
  brushWidth : float;
  strokes : gmap string Stroke.t;
  currentStroke : option Stroke.t
}.

(** What the handlers find in the two refs: [canvas] holds when
    [canvasRef.current] is mounted and yields a 2d context, [socket] when
    [socketRef.current] is set. *)
Record Env := { canvas : bool; socket : bool }.

(** [socketRef.current.emit(...)]. *)
Inductive Emission :=
  | emit_drawing (e : DrawingEvent.t)
  | emit_clear.

Definition initial : State :=
  {| isDrawing := false; currentColor := "#000000"; brushWidth := 2%float;
     strokes := ∅; currentStroke := None |}.

Definition setStrokes (f : gmap string Stroke.t → gmap string Stroke.t)
    (st : State) : State :=
  {| isDrawing := isDrawing st; currentColor := currentColor st;
     brushWidth := brushWidth st; strokes := f (strokes st);
     currentStroke := currentStroke st |}.

Definition setCurrentStroke (f : option Stroke.t → option Stroke.t)
    (st : State) : State :=
  {| isDrawing := isDrawing st; currentColor := currentColor st;
     brushWidth := brushWidth st; strokes := strokes st;
     currentStroke := f (currentStroke st) |}.

Definition setIsDrawing (b : bool) (st : State) : State :=
  {| isDrawing := b; currentColor := currentColor st;
     brushWidth := brushWidth st; strokes := strokes st;
     currentStroke := currentStroke st |}.

(** [socketRef.current] guards every emission. *)
Definition emit (env : Env) (m : Emission) : list Emission :=
  if socket env then [m] else [].

(** The updater of the ['start'] case. *)
Definition remoteStart (now : Z) (data : DrawingEvent.t)
    (prev : gmap string Stroke.t) : gmap string Stroke.t :=
  match DrawingEvent.color data, DrawingEvent.width data with
  | Some c, Some w =>
      if Js.truthy_string c && Js.truthy_number w then
        let newStroke :=
          Stroke.mk (DrawingEvent.strokeId data)
            (match DrawingEvent.point data with
             | Some p => [p]
             | None => []
             end)
            c w now in
        <[DrawingEvent.strokeId data := newStroke]> prev
      else prev
  | _, _ => prev
  end.

(** The updater of the ['draw'] case. *)
Definition remoteDraw (data : DrawingEvent.t)
    (prev : gmap string Stroke.t) : gmap string Stroke.t :=
  match DrawingEvent.point data with
  | Some p =>
      match prev !! DrawingEvent.strokeId data with
      | Some stroke =>
          let updatedStroke :=
            Stroke.mk (Stroke.id stroke) (Stroke.points stroke ++ [p])
              (Stroke.color stroke) (Stroke.width stroke)
              (Stroke.timestamp stroke) in
          <[DrawingEvent.strokeId data := updatedStroke]> prev
      | None => prev
      end
  | None => prev
  end.

(** [handleRemoteDrawing], the listener of the [drawing] event. *)
Definition handleRemoteDrawing (env : Env) (now : Z) (data : DrawingEvent.t)
    (st : State) : State * list Emission :=
  if negb (canvas env) then (st, [])
  else
    match DrawingEvent.type data with
    | type_start => (setStrokes (remoteStart now data) st, [])
    | type_draw => (setStrokes (remoteDraw data) st, [])
    | type_end => (st, [])
    end.

(** [startDrawing]: [point] is what [getPointFromEvent] returns, [nowId] and
    [nowTs] the two readings of [Date.now()], [rnd] the nine characters taken
    from [Math.random().toString(36)]. *)
Definition startDrawing (env : Env) (nowId nowTs : Z) (rnd : string)
    (point : Point) (st : State) : State * list Emission :=
  let strokeId := "stroke_" +:+ pretty nowId +:+ "_" +:+ rnd in
  let newStroke :=
    Stroke.mk strokeId [point] (currentColor st) (brushWidth st) nowTs in
  (setIsDrawing true (setCurrentStroke (λ _, Some newStroke) st),
   emit env (emit_drawing
     (DrawingEvent.mk type_start strokeId (Some point)
        (Some (currentColor st)) (Some (brushWidth st))))).

(** [draw]. *)
Definition draw (env : Env) (point : Point) (st : State)
    : State * list Emission :=
  match isDrawing st, currentStroke st with
  | true, Some cs =>
      (setCurrentStroke
         (λ prev,
            match prev with
            | Some s =>
                Some (Stroke.mk (Stroke.id s) (Stroke.points s ++ [point])
                        (Stroke.color s) (Stroke.width s) (Stroke.timestamp s))
            | None => None
            end) st,
       emit env (emit_drawing
         (DrawingEvent.mk type_draw (Stroke.id cs) (Some point) None None)))
  | _, _ => (st, [])
  end.

(** [stopDrawing]. *)
Definition stopDrawing (env : Env) (st : State) : State * list Emission :=
  match isDrawing st, currentStroke st with
  | true, Some cs =>
      (setCurrentStroke (λ _, None)
         (setStrokes (λ prev, <[Stroke.id cs := cs]> prev)
            (setIsDrawing false st)),
       emit env (emit_drawing
         (DrawingEvent.mk type_end (Stroke.id cs) None None None)))
  | _, _ => (st, [])
  end.

(** [clearCanvas]: the handler of the Clear button, and the body of the
    listener of the [clear] event. *)
Definition clearCanvas (env : Env) (st : State) : State * list Emission :=
  (setCurrentStroke (λ _, None) (setStrokes (λ _, ∅) st),
   emit env emit_clear).

(** The listener registered for [clear]: [() => clearCanvas()]. *)
Definition handleRemoteClear (env : Env) (st : State)
    : State * list Emission :=
  clearCanvas env st.

(** A run of received [drawing] events, each with the clock reading of its
    handler, applied in arrival order. *)
Definition applyDrawings (env : Env) (evs : list (Z * DrawingEvent.t))
    (st : State) : State :=
  foldl (λ s ev, (handleRemoteDrawing env ev.1 ev.2 s).1) st evs.

(** Running a handler after others: its state follows theirs, its
    emissions come after theirs. *)
Definition andThen (r : State * list Emission)
    (h : State → State * list Emission) : State * list Emission :=
  ((h r.1).1, r.2 ++ (h r.1).2).


(** *** Vocabulary of the properties *)



(** The points carried by the ['draw'] events for stroke [id], in arrival
    order. *)
Definition drawPointsFor (id : string) (evs : list (Z * DrawingEvent.t))
    : list Point :=
  mjoin ((λ ev : Z * DrawingEvent.t,
            match DrawingEvent.type ev.2 with
            | type_draw =>
                if decide (DrawingEvent.strokeId ev.2 = id)
                then option_list (DrawingEvent.point ev.2)
                else []
            | _ => []
            end) <$> evs).

(** A ['start'] event for stroke [id] that passes the guard on [color] and
    [width]: the event that creates, or creates anew, the stroke [id]. *)
Definition startsStroke (id : string) (e : DrawingEvent.t) : bool :=
  match DrawingEvent.type e with
  | type_start =>
      bool_decide (DrawingEvent.strokeId e = id)
      && Js.truthy_opt Js.truthy_string (DrawingEvent.color e)
      && Js.truthy_opt Js.truthy_number (DrawingEvent.width e)
  | _ => false
  end.


(** *** The toolbar and the component as a whole *)

Definition setCurrentColor (c : string) (st : State) : State :=
  {| isDrawing := isDrawing st; currentColor := c;
     brushWidth := brushWidth st; strokes := strokes st;
     currentStroke := currentStroke st |}.

Definition setBrushWidth (w : float) (st : State) : State :=
  {| isDrawing := isDrawing st; currentColor := currentColor st;
     brushWidth := w; strokes := strokes st;
     currentStroke := currentStroke st |}.

(** What can happen to the mounted component: the two socket listeners,
    the pointer handlers of the canvas ([onMouseDown]/[onTouchStart],
    [onMouseMove]/[onTouchMove], [onMouseUp]/[onMouseLeave]/[onTouchEnd]), and
    the controls of the toolbar (the colour picker, the width slider with
    the number read from it, the Clear button). *)
Inductive Op :=
  | on_drawing (now : Z) (data : DrawingEvent.t)
  | on_clear
  | press (nowId nowTs : Z) (rnd : string) (point : Point)
  | move (point : Point)
  | release
  | pick_color (c : string)
  | pick_width (w : float)
  | click_clear.

Definition step (env : Env) (op : Op) (st : State) : State * list Emission :=
  match op with
  | on_drawing now data => handleRemoteDrawing env now data st
  | on_clear => handleRemoteClear env st
  | press nowId nowTs rnd point => startDrawing env nowId nowTs rnd point st
  | move point => draw env point st
  | release => stopDrawing env st
  | pick_color c => (setCurrentColor c st, [])
  | pick_width w => (setBrushWidth w st, [])
  | click_clear => clearCanvas env st
  end.

(** The operations in order, each on the state the previous one left. *)
Definition run (env : Env) (ops : list Op) (st : State)
    : State * list Emission :=
  foldl (λ r op, andThen r (step env op)) (st, []) ops.

(** *** The redraw effect *)





(** *** What the calls paint *)







(** The state keeps every stroke of the map under the stroke's own id, and
    stages a stroke only while drawing, with at least one point. *)
Definition wellKeyed (st : State) : Prop :=
  ∀ k s, strokes st !! k = Some s → Stroke.id s = k.

Definition wellStaged (st : State) : Prop :=
  ∀ cs, currentStroke st = Some cs →
    isDrawing st = true ∧ Stroke.points cs ≠ [].

End Whiteboard.

(** ** types/message.ts *)

Inductive MessageType := type_text | type_file | type_system.

Module Message.
Record t := mk {
  id : string;
  type : MessageType;
  content : string;
  sender : string;
  timestamp : Z;
  fileName : option string;
  fileSize : option Z;
  fileType : option string;
  downloadUrl : option string;
  fileId : option string
}.
End Message.

Module User.
Record t := mk {
  id : string;
  name : string;
  isOnline : bool
}.
End User.

Module FileUploadResult.
Record t := mk {
  success : bool;
  file_id : string;
  original_name : string;
  content_type : string;
  size : Z;
  download_url : string;
  expires_at : string
}.
End FileUploadResult.

(** The browser's [File], as far as the code reads it. *)
Module File.
Record t := mk {
  name : string;
  size : Z;
  type : string
}.
End File.

(** ** utils/constants.ts *)

Module Constants.

(** [process.env.NEXT_PUBLIC_BACKEND_URL || 'http://localhost:8000']. *)
Definition BACKEND_URL (NEXT_PUBLIC_BACKEND_URL : option string) : string :=
  match NEXT_PUBLIC_BACKEND_URL with
  | Some u => if Js.truthy_string u then u else "http://localhost:8000"
  | None => "http://localhost:8000"
  end.

End Constants.

(** ** services/api.ts *)

Module Api.

(** What [fetch] settles to: a response with its [ok] flag and status text,
    or a rejection (no response at all). *)
Inductive Response :=
  | response (ok : bool) (statusText : string)
  | network_error (message : string).

(** The requests a handler issues, in order. *)
Inductive Request := request (method url : string).

(** How an [async] function settles. *)
Inductive Outcome := resolved | rejected (error : string).

Section WithBackend.

Variable BACKEND_URL : string.
Variable fetch : string → string → Response.

Definition deleteAt (url : string) : list Request * Outcome :=
  ([request "DELETE" url],
   match fetch "DELETE" url with
   | response true _ => resolved
   | response false statusText => rejected ("Delete failed: " +:+ statusText)
   | network_error message => rejected message
   end).

(** [deleteFile]: [DELETE ${BACKEND_URL}/files/${fileId}]. *)
Definition deleteFile (fileId : string) : list Request * Outcome :=
  deleteAt (BACKEND_URL +:+ "/files/" +:+ fileId).

(** [deleteMessage]: [DELETE ${BACKEND_URL}/messages/${messageId}]. *)
Definition deleteMessage (messageId : string) : list Request * Outcome :=
  deleteAt (BACKEND_URL +:+ "/messages/" +:+ messageId).

End WithBackend.

(** What [response.json()] settles to: the value of the body, or the
    error of a body that does not parse. *)
Inductive Json :=
  | parsed (result : FileUploadResult.t)
  | unparsable (message : string).

(** What the [fetch] of an upload settles to: a response with its [ok]
    flag, its status text and its body, or a rejection. *)
Inductive UploadResponse :=
  | upload_response (ok : bool) (statusText : string) (json : Json)
  | upload_network_error (message : string).

(** How [uploadFile] settles. *)
Inductive UploadOutcome :=
  | uploaded (result : FileUploadResult.t)
  | upload_rejected (error : string).

Section WithUpload.

Variable BACKEND_URL : string.
Variable post : string → File.t → UploadResponse.

(** [uploadFile]: [POST ${BACKEND_URL}/upload] with the file as form data;
    the request is recorded by its method and address. *)
Definition uploadFile (file : File.t) : list Request * UploadOutcome :=
  let url := BACKEND_URL +:+ "/upload" in
  ([request "POST" url],
   match post url file with
   | upload_response true _ (parsed result) => uploaded result
   | upload_response true _ (unparsable message) => upload_rejected message
   | upload_response false statusText _ =>
       upload_rejected ("Upload failed: " +:+ statusText)
   | upload_network_error message => upload_rejected message
   end).

End WithUpload.

End Api.

(** ** services/socket.ts *)

Module SocketService.

(** The [Socket] objects made by [io], in order of creation: a reference to
    one is its index, and the list holds the [connected] flag of each.  [io]
    returns a new object, whose flag is false until the transport reports the
    connection established. *)
Abbreviation Sockets := (list bool).

(** The [socket] field of the service. *)
Record t := { socket : option nat }.

Definition initial : t := {| socket := None |}.

Inductive Emission :=
  | emit_join_chat (on : nat) (userId userName : string)
  | emit_chat_message (on : nat) (message : Message.t).

Definition io (w : Sockets) : nat * Sockets := (length w, w ++ [false]).

(** [this.socket?.connected]. *)
Definition connected (w : Sockets) (s : t) : bool :=
  match socket s with
  | Some r => default false (w !! r)
  | None => false
  end.

(** [connect]: the socket returned, the service and the sockets after. *)
Definition connect (s : t) (w : Sockets) : nat * t * Sockets :=
  match socket s with
  | Some r =>
      if connected w s then (r, s, w)
      else let '(r', w') := io w in (r', {| socket := Some r' |}, w')
  | None => let '(r', w') := io w in (r', {| socket := Some r' |}, w')
  end.

(** [disconnect]: [close] the socket and forget it. *)
Definition disconnect (s : t) (w : Sockets) : t * Sockets :=
  match socket s with
  | Some r => ({| socket := None |}, <[r := false]> w)
  | None => (s, w)
  end.

(** The transport's [connect] event on socket [r]. *)
Definition established (r : nat) (w : Sockets) : Sockets := <[r := true]> w.

Definition joinChat (s : t) (userId userName : string) : list Emission :=
  match socket s with
  | Some r => [emit_join_chat r userId userName]
  | None => []
  end.

Definition sendMessage (s : t) (message : Message.t) : list Emission :=
  match socket s with
  | Some r => [emit_chat_message r message]
  | None => []
  end.

(** What can happen to the service and its sockets: the two calls, and
    the transport's [connect] event on a socket. *)
Inductive Op :=
  | call_connect
  | call_disconnect
  | transport_connect (r : nat).

Definition step (op : Op) (sw : t * Sockets) : t * Sockets :=
  match op with
  | call_connect => ((connect sw.1 sw.2).1.2, (connect sw.1 sw.2).2)
  | call_disconnect => disconnect sw.1 sw.2
  | transport_connect r => (sw.1, established r sw.2)
  end.

Definition run (ops : list Op) (sw : t * Sockets) : t * Sockets :=
  foldl (λ sw op, step op sw) sw ops.

(** The socket the service holds is one of the sockets made. *)
Definition holdsMadeSocket (sw : t * Sockets) : Prop :=
  ∀ r, socket sw.1 = Some r → (r < length sw.2)%nat.

End SocketService.

(** ** hooks/useFileUpload.ts *)

Module UseFileUpload.

(** The state cell of the hook. *)
Record State := { isUploading : bool }.

Definition initial : State := {| isUploading := false |}.

(** [upload]: the flag is raised while [uploadFile] is awaited and lowered
    in the [finally] block, however the upload settles; the result is the
    state once settled, the requests made and the outcome, passed on as
    it is. *)
Definition upload (BACKEND_URL : string)
    (post : string → File.t → Api.UploadResponse) (file : File.t)
    (st : State) : State * list Api.Request * Api.UploadOutcome :=
  let '(reqs, outcome) := Api.uploadFile BACKEND_URL post file in
  ({| isUploading := false |}, reqs, outcome).

(** [remove]. *)
Definition remove (BACKEND_URL : string)
    (fetch : string → string → Api.Response) (fileId : string)
    : list Api.Request * Api.Outcome :=
  Api.deleteFile BACKEND_URL fetch fileId.

End UseFileUpload.

(** ** components/chat/Chat.tsx *)

Module Chat.

(** The state cells of the component. *)
Record State := {
  messages : list Message.t;
  users : list User.t;
  currentUser : option User.t
}.

(** What the handlers read from outside the component: the backend address,
    the socket service, the user's answer to a [confirm] dialog and the
    backend's answer to a request (method, url). *)
Record Env := {
  BACKEND_URL : string;
  service : SocketService.t;
  confirm : string → bool;
  fetch : string → string → Api.Response
}.

Inductive Effect :=
  | socket_emit (e : SocketService.Emission)
  | http (r : Api.Request)
  | alert (text : string).

Definition initial : State :=
  {| messages := []; users := []; currentUser := None |}.

Definition setMessages (f : list Message.t → list Message.t) (st : State)
    : State :=
  {| messages := f (messages st); users := users st;
     currentUser := currentUser st |}.

Definition setUsers (f : list User.t → list User.t) (st : State) : State :=
  {| messages := messages st; users := f (users st);
     currentUser := currentUser st |}.

(** The system entry a client fabricates for a join or a leave. *)
Definition systemMessage (nowId nowTs : Z) (content : string) : Message.t :=
  Message.mk ("system_" +:+ pretty nowId) type_system content "system" nowTs
    None None None None None.

Definition setOnline (id : string) (b : bool) (u : User.t) : User.t :=
  if decide (User.id u = id) then User.mk (User.id u) (User.name u) b else u.

(** [prev.find(u => u.id === id)], as a truth value. *)
Definition known (id : string) (prev : list User.t) : bool :=
  match List.find (λ u, bool_decide (User.id u = id)) prev with
  | Some _ => true
  | None => false
  end.

Definition handleMessage (message : Message.t) (st : State) : State :=
  setMessages (λ prev, prev ++ [message]) st.

Definition handleUserJoined (nowId nowTs : Z) (user : User.t) (st : State)
    : State :=
  setMessages
    (λ prev,
       prev ++ [systemMessage nowId nowTs (User.name user +:+ " joined the chat")])
    (setUsers
       (λ prev,
          if known (User.id user) prev
          then setOnline (User.id user) true <$> prev
          else prev ++ [user])
       st).

Definition handleUserLeft (nowId nowTs : Z) (user : User.t) (st : State)
    : State :=
  if known (User.id user) (users st) then
    setUsers (λ prev, setOnline (User.id user) false <$> prev)
      (setMessages
         (λ prev,
            prev ++ [systemMessage nowId nowTs (User.name user +:+ " left the chat")])
         st)
  else st.

Definition handleUsersList (usersList : list User.t) (st : State) : State :=
  setUsers (λ _, usersList) st.

Definition handleRecentMessages (messagesList : list Message.t) (st : State)
    : State :=
  setMessages (λ _, messagesList) st.

(** The events the component subscribes to with [socket.on]. *)
Inductive ServerEvent :=
  | chat_message (message : Message.t)
  | user_joined (user : User.t)
  | user_left (user : User.t)
  | users_list (usersList : list User.t)
  | recent_messages (messagesList : list Message.t).

(** The listener registered for each event. *)
Definition receive (nowId nowTs : Z) (ev : ServerEvent) (st : State) : State :=
  match ev with
  | chat_message m => handleMessage m st
  | user_joined u => handleUserJoined nowId nowTs u st
  | user_left u => handleUserLeft nowId nowTs u st
  | users_list l => handleUsersList l st
  | recent_messages l => handleRecentMessages l st
  end.

(** [sendMessage] of [useSocket]. *)
Definition sendMessage (env : Env) (message : Message.t) : list Effect :=
  socket_emit <$> SocketService.sendMessage (service env) message.

(** [handleSendMessage]: [rnd] stands for the nine characters taken from
    [Math.random().toString(36)]. *)
Definition handleSendMessage (env : Env) (nowId nowTs : Z) (rnd : string)
    (content : string) (st : State) : State * list Effect :=
  match currentUser st with
  | None => (st, [])
  | Some cu =>
      let message :=
        Message.mk ("msg_" +:+ pretty nowId +:+ "_" +:+ rnd) type_text content
          (User.name cu) nowTs None None None None None in
      (st, sendMessage env message)
  end.

Definition isFile (t : MessageType) : bool :=
  match t with type_file => true | _ => false end.

Definition isSystem (t : MessageType) : bool :=
  match t with type_system => true | _ => false end.

(** The request of [handleDeleteMessage]'s [try] block. *)
Definition deleteRequest (env : Env) (message : Message.t)
    : list Api.Request * Api.Outcome :=
  match Message.fileId message with
  | Some fileId =>
      if isFile (Message.type message) && Js.truthy_string fileId
      then Api.deleteFile (BACKEND_URL env) (fetch env) fileId
      else Api.deleteMessage (BACKEND_URL env) (fetch env) (Message.id message)
  | None => Api.deleteMessage (BACKEND_URL env) (fetch env) (Message.id message)
  end.

(** The question [handleDeleteMessage] asks. *)
Definition deletePrompt : string :=
  "Are you sure you want to delete this message? This action cannot be undone.".

(** [handleDeleteMessage]. *)
Definition handleDeleteMessage (env : Env) (message : Message.t) (st : State)
    : State * list Effect :=
  if isSystem (Message.type message) then (st, [])
  else if negb (confirm env deletePrompt) then (st, [])
  else
    let '(reqs, outcome) := deleteRequest env message in
    match outcome with
    | Api.resolved =>
        (setMessages
           (λ prev, filter (λ msg, Message.id msg ≠ Message.id message) prev)
           st,
         http <$> reqs)
    | Api.rejected _ =>
        (st, (http <$> reqs) ++ [alert "Failed to delete message. Please try again."])
    end.

(** [handleUserLeft] when React runs the updater given to [setUsers]
    more than once (it does so twice in development under StrictMode, once
    in a production render): the updater calls [setMessages], so the
    announcement is appended once per run, each with the clock readings of
    that run; the users are those any one run returns.  [runs] holds the two
    clock readings of each run. *)
Definition handleUserLeftRuns (runs : list (Z * Z)) (user : User.t)
    (st : State) : State :=
  if known (User.id user) (users st) then
    setUsers (λ prev, setOnline (User.id user) false <$> prev)
      (setMessages
         (λ prev,
            prev
            ++ ((λ now : Z * Z,
                   systemMessage now.1 now.2 (User.name user +:+ " left the chat"))
                <$> runs))
         st)
  else st.

Definition setCurrentUser (u : option User.t) (st : State) : State :=
  {| messages := messages st; users := users st; currentUser := u |}.

(** The effect that runs once the hook has a socket ([socket] is the state
    cell of [useSocket], [joinChat] goes through the service): [rnd] stands
    for the nine characters taken from [Math.random().toString(36)], [n] for
    [Math.floor(Math.random() * 1000)]. *)
Definition mount (env : Env) (socket : option nat) (rnd : string) (n : Z)
    (st : State) : State * list Effect :=
  match socket with
  | None => (st, [])
  | Some _ =>
      let userId := "user_" +:+ rnd in
      let userName := "User " +:+ pretty n in
      (setCurrentUser (Some (User.mk userId userName true)) st,
       socket_emit <$> SocketService.joinChat (service env) userId userName)
  end.

(** The message [handleFileUpload] builds from the result of an upload. *)
Definition fileMessage (nowId nowTs : Z) (rnd : string) (sender : string)
    (uploadResult : FileUploadResult.t) : Message.t :=
  Message.mk ("file_" +:+ pretty nowId +:+ "_" +:+ rnd) type_file
    (FileUploadResult.download_url uploadResult) sender nowTs
    (Some (FileUploadResult.original_name uploadResult))
    (Some (FileUploadResult.size uploadResult))
    (Some (FileUploadResult.content_type uploadResult))
    (Some (FileUploadResult.download_url uploadResult))
    (Some (FileUploadResult.file_id uploadResult)).

(** [handleFileUpload]: [post] is the backend's answer to an upload, [up]
    the state of the [useFileUpload] hook of the component. *)
Definition handleFileUpload (env : Env)
    (post : string → File.t → Api.UploadResponse) (nowId nowTs : Z)
    (rnd : string) (file : File.t) (st : State) (up : UseFileUpload.State)
    : State * UseFileUpload.State * list Effect :=
  match currentUser st with
  | None => (st, up, [])
  | Some cu =>
      let '(up', reqs, outcome) :=
        UseFileUpload.upload (BACKEND_URL env) post file up in
      match outcome with
      | Api.uploaded uploadResult =>
          (st, up',
           (http <$> reqs)
           ++ sendMessage env
                (fileMessage nowId nowTs rnd (User.name cu) uploadResult))
      | Api.upload_rejected _ =>
          (st, up',
           (http <$> reqs) ++ [alert "Failed to upload file. Please try again."])
      end
  end.

(** The question [handleDeleteFile] asks: an absent [fileName] prints as
    [undefined]. *)
Definition deleteFilePrompt (message : Message.t) : string :=
  let quote := String (Ascii.ascii_of_nat 34) EmptyString in
  "Are you sure you want to delete " +:+ quote
  +:+ default "undefined" (Message.fileName message)
  +:+ quote +:+ "? This action cannot be undone.".

(** [handleDeleteFile]. *)
Definition handleDeleteFile (env : Env) (message : Message.t) (st : State)
    : State * list Effect :=
  match Message.fileId message with
  | Some fileId =>
      if negb (isFile (Message.type message)) || negb (Js.truthy_string fileId)
      then (st, [])
      else if negb (confirm env (deleteFilePrompt message)) then (st, [])
      else
        let '(reqs, outcome) :=
          Api.deleteFile (BACKEND_URL env) (fetch env) fileId in
        match outcome with
        | Api.resolved =>
            (setMessages
               (λ prev, filter (λ msg, Message.id msg ≠ Message.id message) prev)
               st,
             http <$> reqs)
        | Api.rejected _ =>
            (st, (http <$> reqs)
                 ++ [alert "Failed to delete file. Please try again."])
        end
  | None => (st, [])
  end.

(** *** Vocabulary of the properties *)

(** The socket emissions and the requests among a list of effects. *)
Definition emissionsOf (effs : list Effect) : list SocketService.Emission :=
  omap (λ f, match f with socket_emit e => Some e | _ => None end) effs.

Definition requestsOf (effs : list Effect) : list Api.Request :=
  omap (λ f, match f with http r => Some r | _ => None end) effs.

End Chat.

(** ** components/chat/MessageItem.tsx *)

Module MessageItem.

(** [handleDelete], the click handler of the delete button: [onDelete] is
    [Chat.handleDeleteMessage]. *)
Definition handleDelete (env : Chat.Env) (currentUser : option string)
    (message : Message.t) (st : Chat.State) : Chat.State * list Chat.Effect :=
  let isCurrentUser := bool_decide (Some (Message.sender message) = currentUser) in
  let isSystemMessage := Chat.isSystem (Message.type message) in
  if isCurrentUser && negb isSystemMessage
  then Chat.handleDeleteMessage env message st
  else (st, []).

End MessageItem.

(** ** components/chat/UserList.tsx *)

Module UserList.

Definition onlineUsers (users : list User.t) : list User.t :=
  filter (λ user, User.isOnline user = true) users.

(** The avatars: [onlineUsers.slice(0, 5)]. *)
Definition avatars (users : list User.t) : list User.t :=
  take 5 (onlineUsers users).


End UserList.

(** ** components/Chat.tsx, the single-file chat panel *)

Module LegacyChat.

(** The state cells of the component. *)
Record State := {
  socket : option nat;
  messages : list Message.t;
  newMessage : string;
  users : list User.t;
  currentUser : option User.t;
  isConnected : bool;
  isUploading : bool
}.

(** The backend address, the user's answer to a [confirm] dialog, and the
    backend's answers to a request (method, url) and to an upload. *)
Record Env := {
  NEXT_PUBLIC_BACKEND_URL : option string;
  confirm : string → bool;
  fetch : string → string → Api.Response;
  post : string → File.t → Api.UploadResponse
}.

Inductive Effect :=
  | socket_emit (on : nat) (event : string) (message : Message.t)
  | http (r : Api.Request)
  | alert (text : string).

Definition setMessages (f : list Message.t → list Message.t) (st : State)
    : State :=
  {| socket := socket st; messages := f (messages st);
     newMessage := newMessage st; users := users st;
     currentUser := currentUser st; isConnected := isConnected st;
     isUploading := isUploading st |}.

Definition setIsUploading (b : bool) (st : State) : State :=
  {| socket := socket st; messages := messages st;
     newMessage := newMessage st; users := users st;
     currentUser := currentUser st; isConnected := isConnected st;
     isUploading := b |}.

(** [10 * 1024 * 1024]. *)
Definition maxSize : Z := 10 * 1024 * 1024.

(** [handleFileUpload], for the file picked ([e.target.files?.[0]]). *)
Definition handleFileUpload (env : Env) (nowId nowTs : Z) (rnd : string)
    (file : option File.t) (st : State) : State * list Effect :=
  match file, socket st, currentUser st with
  | Some file, Some sock, Some cu =>
      if decide (maxSize < File.size file)
      then (st, [alert "File size must be less than 10MB"])
      else
        let backendUrl := Constants.BACKEND_URL (NEXT_PUBLIC_BACKEND_URL env) in
        let '(reqs, outcome) := Api.uploadFile backendUrl (post env) file in
        match outcome with
        | Api.uploaded uploadResult =>
            (setIsUploading false st,
             (http <$> reqs)
             ++ [socket_emit sock "chat_message"
                   (Chat.fileMessage nowId nowTs rnd (User.name cu) uploadResult)])
        | Api.upload_rejected _ =>
            (setIsUploading false st,
             (http <$> reqs) ++ [alert "Failed to upload file. Please try again."])
        end
  | _, _, _ => (st, [])
  end.

(** The [try] block that both delete handlers share, for the address of
    the record to delete. *)
Definition deleteAndFilter (env : Env) (url : string) (failure : string)
    (message : Message.t) (st : State) : State * list Effect :=
  match fetch env "DELETE" url with
  | Api.response true _ =>
      (setMessages
         (λ prev, filter (λ msg, Message.id msg ≠ Message.id message) prev) st,
       [http (Api.request "DELETE" url)])
  | _ => (st, [http (Api.request "DELETE" url); alert failure])
  end.

(** [deleteFile]. *)
Definition deleteFile (env : Env) (message : Message.t) (st : State)
    : State * list Effect :=
  match Message.fileId message with
  | Some fileId =>
      if negb (Chat.isFile (Message.type message))
         || negb (Js.truthy_string fileId)
      then (st, [])
      else if negb (confirm env (Chat.deleteFilePrompt message)) then (st, [])
      else
        deleteAndFilter env
          (Constants.BACKEND_URL (NEXT_PUBLIC_BACKEND_URL env)
           +:+ "/files/" +:+ fileId)
          "Failed to delete file. Please try again." message st
  | None => (st, [])
  end.

(** [deleteMessage]. *)
Definition deleteMessage (env : Env) (message : Message.t) (st : State)
    : State * list Effect :=
  if Chat.isSystem (Message.type message) then (st, [])
  else if negb (confirm env Chat.deletePrompt) then (st, [])
  else
    deleteAndFilter env
      (Constants.BACKEND_URL (NEXT_PUBLIC_BACKEND_URL env)
       +:+ "/messages/" +:+ Message.id message)
      "Failed to delete message. Please try again." message st.

(** The delete button of a message: shown on the current user's messages
    that are not system messages, it deletes a file message as a file and
    any other as a message. *)
Definition clickDelete (env : Env) (message : Message.t) (st : State)
    : State * list Effect :=
  if bool_decide (Some (Message.sender message) = User.name <$> currentUser st)
     && negb (Chat.isSystem (Message.type message))
  then
    if Chat.isFile (Message.type message) then deleteFile env message st
    else deleteMessage env message st
  else (st, []).

Definition requestsOf (effs : list Effect) : list Api.Request :=
  omap (λ f, match f with http r => Some r | _ => None end) effs.

End LegacyChat.

(** ** The relay server

    The server code ([backend/main.py]) is not among the sources: the
    events are those the clients emit and subscribe to, the server's state
    and actions follow the specification. *)

Module Relay.

(** Events a connection sends to the server, and the closing of a
    connection. *)
Inductive Inbound :=
  | join_chat (userId userName : string)
  | chat_message (message : Message.t)
  | drawing (e : Whiteboard.DrawingEvent.t)
  | clear
  | closes.

(** Events the server sends to a connection. *)
Inductive Outbound :=
  | out_recent_messages (messagesList : list Message.t)
  | out_user_joined (id name : string)
  | out_user_left (id name : string)
  | out_chat_message (message : Message.t)
  | out_drawing (e : Whiteboard.DrawingEvent.t)
  | out_clear.

(** The wire name of an outbound event. *)
Definition name (o : Outbound) : string :=
  match o with
  | out_recent_messages _ => "recent_messages"
  | out_user_joined _ _ => "user_joined"
  | out_user_left _ _ => "user_left"
  | out_chat_message _ => "chat_message"
  | out_drawing _ => "drawing"
  | out_clear => "clear"
  end.

(** Modelled from the spec: the records of the History Store, which the
    absent server code appends to: joins, leaves and chat messages. *)
Inductive HistoryRecord :=
  | joined (userId userName : string)
  | left (userId userName : string)
  | said (message : Message.t).

(** Modelled from the spec: the state of the absent server: the registry
    of open connections (by session id), the identity recorded on the
    connections that joined, and the History Store. *)
Record Server := {
  connections : list nat;
  identity : gmap nat (string * string);
  history : list HistoryRecord
}.

(** Modelled from the spec: the append to the History Store, in place of
    the absent persistence code. *)
Definition persist (r : HistoryRecord) (s : Server) : Server :=
  {| connections := connections s; identity := identity s;
     history := history s ++ [r] |}.

(** The chat messages of the History Store, oldest first. *)
Definition chatMessages (h : list HistoryRecord) : list Message.t :=
  omap (λ r, match r with said m => Some m | _ => None end) h.

(** Modelled from the spec: the query of the absent server code for the
    most recent [n] chat messages. *)
Definition recent (n : nat) (h : list HistoryRecord) : list Message.t :=
  let ms := chatMessages h in drop (length ms - n) ms.

(** Modelled from the spec: the routing rule of the relay, whose server
    code ([backend/main.py]) is not among the sources: an event is sent to
    all other connections, never back to the sender. *)
Definition broadcast (sender : nat) (o : Outbound) (s : Server)
    : list (nat * Outbound) :=
  (λ c, (c, o)) <$> filter (λ c, c ≠ sender) (connections s).

(** Modelled from the spec: the table of server actions per inbound event,
    for the absent server code; [n] is the size of the join snapshot. *)
Definition handle (n : nat) (sender : nat) (ev : Inbound) (s : Server)
    : Server * list (nat * Outbound) :=
  match ev with
  | join_chat userId userName =>
      let s1 :=
        persist (joined userId userName)
          {| connections := connections s;
             identity := <[sender := (userId, userName)]> (identity s);
             history := history s |} in
      (s1, (sender, out_recent_messages (recent n (history s1)))
             :: broadcast sender (out_user_joined userId userName) s1)
  | chat_message m =>
      let s1 := persist (said m) s in
      (s1, broadcast sender (out_chat_message m) s1)
  | drawing e => (s, broadcast sender (out_drawing e) s)
  | clear => (s, broadcast sender out_clear s)
  | closes =>
      let s1 :=
        {| connections := filter (λ c, c ≠ sender) (connections s);
           identity := delete sender (identity s);
           history := history s |} in
      match identity s !! sender with
      | Some (userId, userName) =>
          let s2 := persist (left userId userName) s1 in
          (s2, broadcast sender (out_user_left userId userName) s2)
      | None => (s1, [])
      end
  end.

(** The name of the event the server rebroadcasts for an inbound event. *)
Definition relayed (ev : Inbound) : string :=
  match ev with
  | join_chat _ _ => "user_joined"
  | chat_message _ => "chat_message"
  | drawing _ => "drawing"
  | clear => "clear"
  | closes => "user_left"
  end.

(** The connections that are sent an event of the given name. *)
Definition recipients (nm : string) (ds : list (nat * Outbound)) : list nat :=
  fst <$> filter (λ d, name d.2 = nm) ds.

End Relay.

(** ** A chat session: clients of one relay *)

Module Session.

(** The event the relay is sent for an emission of a client's socket. *)
Definition inbound (e : SocketService.Emission) : Relay.Inbound :=
  match e with
  | SocketService.emit_join_chat _ userId userName =>
      Relay.join_chat userId userName
  | SocketService.emit_chat_message _ message => Relay.chat_message message
  end.

(** The relay handling the emissions of the connection [sender], in the
    order they were made: the server after them and all it sent. *)
Definition relay (n sender : nat) (ems : list SocketService.Emission)
    (s : Relay.Server) : Relay.Server * list (nat * Relay.Outbound) :=
  foldl
    (λ r e,
       ((Relay.handle n sender (inbound e) r.1).1,
        r.2 ++ (Relay.handle n sender (inbound e) r.1).2))
    (s, []) ems.

(** Modelled from the spec: the event a listener of the chat panel is
    called with for an event the absent server sends: the payload of
    [user_joined] and [user_left] is [{id, name}], online implied; the
    whiteboard's events have no listener in the chat panel. *)
Definition heard (o : Relay.Outbound) : option Chat.ServerEvent :=
  match o with
  | Relay.out_recent_messages l => Some (Chat.recent_messages l)
  | Relay.out_user_joined id name => Some (Chat.user_joined (User.mk id name true))
  | Relay.out_user_left id name => Some (Chat.user_left (User.mk id name true))
  | Relay.out_chat_message m => Some (Chat.chat_message m)
  | Relay.out_drawing _ | Relay.out_clear => None
  end.

(** The chat panel on connection [c] handling, in order, what the relay
    sent to it; [clock] gives the clock readings of each handler. *)
Definition peerReceives (clock : Relay.Outbound → Z * Z) (c : nat)
    (sent : list (nat * Relay.Outbound)) (peer : Chat.State) : Chat.State :=
  foldl
    (λ st d,
       if decide (d.1 = c) then
         match heard d.2 with
         | Some ev => Chat.receive (clock d.2).1 (clock d.2).2 ev st
         | None => st
         end
       else st)
    peer sent.

End Session.

(** ** Sample data *)

Module Sample.

Import Whiteboard.

Definition env : Env := {| canvas := true; socket := true |}.

Definition p00 : Point := {| x := 0%float; y := 0%float |}.
Definition p11 : Point := {| x := 1%float; y := 1%float |}.
Definition p55 : Point := {| x := 5%float; y := 5%float |}.

Definition start_s1 : DrawingEvent.t :=
  DrawingEvent.mk type_start "s1" (Some p00) (Some "#000") (Some 2%float).
Definition draw_s1 : DrawingEvent.t :=
  DrawingEvent.mk type_draw "s1" (Some p55) None None.
Definition restart_s1 : DrawingEvent.t :=
  DrawingEvent.mk type_start "s1" (Some p11) (Some "#f00") (Some 3%float).
Definition end_s1 : DrawingEvent.t :=
  DrawingEvent.mk type_end "s1" None None None.

(** A start event that carries no colour, and one of width zero. *)
Definition start_nocolor : DrawingEvent.t :=
  DrawingEvent.mk type_start "s2" (Some p00) None (Some 2%float).
Definition start_width0 : DrawingEvent.t :=
  DrawingEvent.mk type_start "s2" (Some p00) (Some "#000") (Some 0%float).
Definition draw_s2 : DrawingEvent.t :=
  DrawingEvent.mk type_draw "s2" (Some p55) None None.

Definition ann : User.t := User.mk "u1" "Ann" true.
Definition bob : User.t := User.mk "u2" "Bob" true.

Definition m1 : Message.t :=
  Message.mk "m1" type_text "hello" "Ann" 1 None None None None None.
Definition f1 : Message.t :=
  Message.mk "m2" type_file "https://x/f1" "Ann" 2 (Some "a.pdf") (Some 100)
    (Some "application/pdf") (Some "https://x/f1") (Some "f1").

(** File messages without a usable [fileId]: absent, and empty. *)
Definition f_noid : Message.t :=
  Message.mk "m3" type_file "https://x/f3" "Ann" 3 (Some "b.pdf") (Some 100)
    (Some "application/pdf") (Some "https://x/f3") None.
Definition f_emptyid : Message.t :=
  Message.mk "m4" type_file "https://x/f4" "Ann" 4 (Some "c.pdf") (Some 100)
    (Some "application/pdf") (Some "https://x/f4") (Some "").

Definition connectedService : SocketService.t :=
  {| SocketService.socket := Some 0%nat |}.

(** The user confirms; the backend answers [ok], or answers 404. *)
Definition chatEnv : Chat.Env :=
  {| Chat.BACKEND_URL := "http://localhost:8000";
     Chat.service := connectedService;
     Chat.confirm := λ _, true;
     Chat.fetch := λ _ _, Api.response true "OK" |}.
Definition chatEnvFailing : Chat.Env :=
  {| Chat.BACKEND_URL := "http://localhost:8000";
     Chat.service := connectedService;
     Chat.confirm := λ _, true;
     Chat.fetch := λ _ _, Api.response false "Not Found" |}.

(** Three open connections, the first of which has joined the chat. *)
Definition relay3 : Relay.Server :=
  {| Relay.connections := [0; 1; 2]%nat;
     Relay.identity := {[ 0%nat := ("u1", "Ann") ]};
     Relay.history := [] |}.

Definition chat0 : Chat.State :=
  {| Chat.messages := []; Chat.users := [ann]; Chat.currentUser := Some ann |}.
Definition chat1 : Chat.State :=
  {| Chat.messages := [m1; f1; f_noid; f_emptyid]; Chat.users := [ann; bob];
     Chat.currentUser := Some ann |}.

(** A gesture under way: pressed at the origin, moved once. *)
Definition midGesture : Whiteboard.State :=
  (Whiteboard.run env
     [Whiteboard.press 10 10 "abc" p00; Whiteboard.move p55]
     Whiteboard.initial).1.

Definition upload_f1 : FileUploadResult.t :=
  FileUploadResult.mk true "f1" "a.pdf" "application/pdf" 100 "https://x/f1"
    "2024-01-01T00:00:00".

Definition file_a : File.t := File.mk "a.pdf" 100 "application/pdf".
(** Files of exactly ten mebibytes, and of one byte more. *)
Definition file_10MB : File.t := File.mk "b.bin" 10485760 "application/octet-stream".
Definition file_over : File.t := File.mk "c.bin" 10485761 "application/octet-stream".

(** The backend accepts the upload, or answers 413. *)
Definition postOk : string → File.t → Api.UploadResponse :=
  λ _ _, Api.upload_response true "OK" (Api.parsed upload_f1).
Definition postFailing : string → File.t → Api.UploadResponse :=
  λ _ _, Api.upload_response false "Payload Too Large" (Api.unparsable "").

Definition legacyEnv : LegacyChat.Env :=
  {| LegacyChat.NEXT_PUBLIC_BACKEND_URL := None;
     LegacyChat.confirm := λ _, true;
     LegacyChat.fetch := λ _ _, Api.response true "OK";
     LegacyChat.post := postOk |}.

Definition legacy1 : LegacyChat.State :=
  {| LegacyChat.socket := Some 0%nat;
     LegacyChat.messages := [m1; f1; f_noid; f_emptyid];
     LegacyChat.newMessage := "";
     LegacyChat.users := [ann; bob];
     LegacyChat.currentUser := Some ann;
     LegacyChat.isConnected := true;
     LegacyChat.isUploading := false |}.

(** Six users online and one offline. *)
Definition crowd : list User.t :=
  [ann; bob; User.mk "u3" "Cy" true; User.mk "u4" "Di" false;
   User.mk "u5" "Ed" true; User.mk "u6" "Flo" true; User.mk "u7" "Gus" true].

End Sample.

(** * Properties *)

(** ** The stroke model *)

Section StrokeModel.

Import Whiteboard.

Implicit Types (env : Env) (st : State) (e : DrawingEvent.t) (id : string).

Lemma setStrokes_id st : setStrokes (λ m, m) st = st.
Proof. by destruct st. Qed.

Lemma handleRemoteDrawing_silent env now e st :
  (handleRemoteDrawing env now e st).2 = [].
Proof.
  unfold handleRemoteDrawing.
  destruct (canvas env); [|done]. by destruct (DrawingEvent.type e).
Qed.

Lemma applyDrawings_cons env ev evs st :
  applyDrawings env (ev :: evs) st
  = applyDrawings env evs (handleRemoteDrawing env ev.1 ev.2 st).1.
Proof. done. Qed.

Lemma applyDrawings_app env evs1 evs2 st :
  applyDrawings env (evs1 ++ evs2) st
  = applyDrawings env evs2 (applyDrawings env evs1 st).
Proof. apply foldl_app. Qed.

(** A ['draw'] for a stroke the map does not hold changes nothing. *)
Lemma remoteDraw_unknown e (m : gmap string Stroke.t) :
  m !! DrawingEvent.strokeId e = None → remoteDraw e m = m.
Proof.
  intros Hnone. unfold remoteDraw.
  destruct (DrawingEvent.point e); [|done]. by rewrite Hnone.
Qed.

(** A ['start'] that fails the guard changes nothing. *)
Lemma remoteStart_guard now e (m : gmap string Stroke.t) :
  Js.truthy_opt Js.truthy_string (DrawingEvent.color e) = false
  ∨ Js.truthy_opt Js.truthy_number (DrawingEvent.width e) = false →
  remoteStart now e m = m.
Proof.
  unfold remoteStart.
  destruct (DrawingEvent.color e) as [c|], (DrawingEvent.width e) as [w|];
    simpl; intros [H|H]; try done; rewrite H; try done.
  by rewrite andb_false_r.
Qed.

(** One received event, seen from stroke [id]: unless the event starts
    [id] anew, the stroke keeps its identity, colour, width and clock
    reading, and its points gain those the event carries for it. *)
Lemma handleRemoteDrawing_stroke env now e st id s :
  strokes st !! id = Some s →
  startsStroke id e = false →
  ∃ ps,
    strokes (handleRemoteDrawing env now e st).1 !! id
    = Some (Stroke.mk (Stroke.id s) (Stroke.points s ++ ps) (Stroke.color s)
              (Stroke.width s) (Stroke.timestamp s))
    ∧ (canvas env = true → ps = drawPointsFor id [(now, e)]).
Proof.
  intros Hs Hno. unfold handleRemoteDrawing, drawPointsFor, startsStroke in *.
  destruct (canvas env) eqn:Hc; simpl.
  2:{ exists []. rewrite app_nil_r. by destruct s. }
  destruct (DrawingEvent.type e) eqn:Ht; simpl.
  - exists []. rewrite app_nil_r. split; [|done].
    unfold remoteStart.
    destruct (DrawingEvent.color e) as [c|], (DrawingEvent.width e) as [w|];
      simpl in *; try (by destruct s).
    destruct (Js.truthy_string c && Js.truthy_number w) eqn:Hg;
      [|by destruct s].
    case_bool_decide as Hid.
    + simpl in Hno. congruence.
    + rewrite lookup_insert_ne; [by destruct s | done].
  - unfold remoteDraw.
    destruct (DrawingEvent.point e) as [p|]; simpl.
    + case_decide as Hid.
      * exists [p]. rewrite Hid, Hs. simpl.
        by rewrite lookup_insert_eq.
      * exists []. rewrite app_nil_r. split; [|done].
        destruct (strokes st !! DrawingEvent.strokeId e);
          [rewrite lookup_insert_ne by done|]; by destruct s.
    + exists []. rewrite app_nil_r. split; [by destruct s|].
      by case_decide.
  - exists []. rewrite app_nil_r. by destruct s.
Qed.

Lemma drawPointsFor_cons id ev evs :
  drawPointsFor id (ev :: evs) = drawPointsFor id [ev] ++ drawPointsFor id evs.
Proof. unfold drawPointsFor. simpl. by rewrite app_nil_r. Qed.

(** The same over a run of received events. *)
Lemma applyDrawings_stroke env evs : ∀ st id s,
  strokes st !! id = Some s →
  Forall (λ ev, startsStroke id ev.2 = false) evs →
  ∃ ps,
    strokes (applyDrawings env evs st) !! id
    = Some (Stroke.mk (Stroke.id s) (Stroke.points s ++ ps) (Stroke.color s)
              (Stroke.width s) (Stroke.timestamp s))
    ∧ (canvas env = true → ps = drawPointsFor id evs).
Proof.
  induction evs as [|[now e] evs IH]; intros st id s Hs Hall.
  - exists []. rewrite app_nil_r. by destruct s.
  - apply Forall_cons in Hall as [He Hall]. simpl in He.
    destruct (handleRemoteDrawing_stroke env now e st id s Hs He)
      as (ps1 & Hs1 & Hps1).
    destruct (IH _ _ _ Hs1 Hall) as (ps2 & Hs2 & Hps2). simpl in Hs2.
    exists (ps1 ++ ps2). rewrite applyDrawings_cons. simpl.
    rewrite Hs2, <-app_assoc. split; [done|].
    intros Hc. rewrite drawPointsFor_cons. by rewrite Hps1, Hps2.
Qed.

(** A stroke the map does not hold stays out of it until an event starts it. *)
Lemma handleRemoteDrawing_absent env now e st id :
  strokes st !! id = None →
  startsStroke id e = false →
  strokes (handleRemoteDrawing env now e st).1 !! id = None.
Proof.
  intros Hnone Hno. unfold handleRemoteDrawing, startsStroke in *.
  destruct (canvas env); simpl; [|done].
  destruct (DrawingEvent.type e); simpl; [| |done].
  - unfold remoteStart.
    destruct (DrawingEvent.color e) as [c|], (DrawingEvent.width e) as [w|];
      simpl in *; try done.
    destruct (Js.truthy_string c && Js.truthy_number w) eqn:Hg; [|done].
    case_bool_decide as Hid; simpl in Hno; [congruence|].
    by rewrite lookup_insert_ne.
  - unfold remoteDraw.
    destruct (DrawingEvent.point e) as [p|]; [|done].
    destruct (strokes st !! DrawingEvent.strokeId e) eqn:Hl; [|done].
    rewrite lookup_insert_ne; [done|]. congruence.
Qed.

Lemma applyDrawings_absent env evs : ∀ st id,
  strokes st !! id = None →
  Forall (λ ev, startsStroke id ev.2 = false) evs →
  strokes (applyDrawings env evs st) !! id = None.
Proof.
  induction evs as [|[now e] evs IH]; intros st id Hnone Hall; [done|].
  apply Forall_cons in Hall as [He Hall]. rewrite applyDrawings_cons.
  apply IH; [|done]. by apply handleRemoteDrawing_absent.
Qed.

(** A ['draw'] event for a stroke the model does not hold is a no-op. *)
Lemma handleRemoteDrawing_draw_unknown env now e st :
  DrawingEvent.type e = type_draw →
  strokes st !! DrawingEvent.strokeId e = None →
  handleRemoteDrawing env now e st = (st, []).
Proof.
  intros Ht Hnone. unfold handleRemoteDrawing. rewrite Ht.
  destruct (canvas env); simpl; [|done].
  rewrite <-(setStrokes_id st) at 2. unfold setStrokes.
  by rewrite remoteDraw_unknown.
Qed.

(** An accepted ['start'] puts a stroke with the event's point, if any. *)
Lemma handleRemoteDrawing_start env now e st :
  canvas env = true →
  startsStroke (DrawingEvent.strokeId e) e = true →
  ∃ c w,
    DrawingEvent.color e = Some c ∧ DrawingEvent.width e = Some w
    ∧ strokes (handleRemoteDrawing env now e st).1 !! DrawingEvent.strokeId e
      = Some (Stroke.mk (DrawingEvent.strokeId e)
                (option_list (DrawingEvent.point e)) c w now).
Proof.
  intros Hc Hst. unfold handleRemoteDrawing, startsStroke in *. rewrite Hc.
  destruct (DrawingEvent.type e); try done. simpl. unfold remoteStart.
  destruct (DrawingEvent.color e) as [c|]; simpl in Hst;
    [|by rewrite andb_false_r in Hst].
  destruct (DrawingEvent.width e) as [w|]; simpl in Hst;
    [|by rewrite andb_false_r in Hst].
  rewrite bool_decide_eq_true_2 in Hst by done. simpl in Hst. rewrite Hst.
  exists c, w. rewrite lookup_insert_eq.
  by destruct (DrawingEvent.point e).
Qed.

(** C4, as amended: once the model holds a stroke [id], every run of
    received drawing events that contains no accepted ['start'] for [id]
    leaves the stroke in the model with a points sequence that extends the
    previous one: points are appended, never truncated or replaced. *)
Theorem stroke_points_only_grow env evs st id s :
  strokes st !! id = Some s →
  Forall (λ ev, startsStroke id ev.2 = false) evs →
  ∃ s',
    strokes (applyDrawings env evs st) !! id = Some s'
    ∧ Stroke.points s `prefix_of` Stroke.points s'.
Proof.
  intros Hs Hall.
  destruct (applyDrawings_stroke env evs st id s Hs Hall) as (ps & Hs' & _).
  eexists. split; [exact Hs'|]. simpl. by exists ps.
Qed.

Lemma stroke_points_only_grow_witness :
  ∃ s',
    strokes (applyDrawings Sample.env
               [(11, Sample.draw_s1); (12, Sample.end_s1)]
               (handleRemoteDrawing Sample.env 10 Sample.start_s1 initial).1)
      !! "s1" = Some s'
    ∧ [Sample.p00] `prefix_of` Stroke.points s'.
Proof.
  apply (stroke_points_only_grow Sample.env
           [(11, Sample.draw_s1); (12, Sample.end_s1)]
           (handleRemoteDrawing Sample.env 10 Sample.start_s1 initial).1 "s1"
           (Stroke.mk "s1" [Sample.p00] "#000" 2%float 10)).
  - vm_compute. reflexivity.
  - repeat constructor.
Defined.

(** C4, as stated, fails: a second ['start'] for a stroke the model holds
    replaces its points by the single point of the new event. *)
Lemma restart_replaces_points :
  let st1 :=
    applyDrawings Sample.env [(10, Sample.start_s1); (11, Sample.draw_s1)]
      initial in
  let st2 := (handleRemoteDrawing Sample.env 12 Sample.restart_s1 st1).1 in
  Stroke.points <$> strokes st1 !! "s1" = Some [Sample.p00; Sample.p55]
  ∧ Stroke.points <$> strokes st2 !! "s1" = Some [Sample.p11]
  ∧ ¬ [Sample.p00; Sample.p55] `prefix_of` [Sample.p11].
Proof.
  split; [by vm_compute|]. split; [by vm_compute|].
  intros [k Hk]. discriminate Hk.
Qed.

(** C5, as amended: after an accepted ['start'] for a stroke, and as long as
    no later event starts that stroke anew, the points the model holds for
    it are the point of the start event, if it carries one, followed by the
    points of the ['draw'] events for it, in arrival order; and a ['draw']
    event for a stroke the model does not hold changes nothing and emits
    nothing. *)
Theorem points_after_start :
  (∀ env now e evs st,
     canvas env = true →
     startsStroke (DrawingEvent.strokeId e) e = true →
     Forall (λ ev, startsStroke (DrawingEvent.strokeId e) ev.2 = false) evs →
     Stroke.points <$>
       strokes (applyDrawings env ((now, e) :: evs) st)
         !! DrawingEvent.strokeId e
     = Some (option_list (DrawingEvent.point e)
             ++ drawPointsFor (DrawingEvent.strokeId e) evs))
  ∧ (∀ env now e st,
       DrawingEvent.type e = type_draw →
       strokes st !! DrawingEvent.strokeId e = None →
       handleRemoteDrawing env now e st = (st, [])).
Proof.
  split.
  - intros env now e evs st Hc Hst Hall.
    destruct (handleRemoteDrawing_start env now e st Hc Hst)
      as (c & w & _ & _ & Hs).
    destruct (applyDrawings_stroke env evs _ _ _ Hs Hall) as (ps & Hs' & Hps).
    rewrite applyDrawings_cons. simpl in *. rewrite Hs'. simpl.
    by rewrite (Hps Hc).
  - apply handleRemoteDrawing_draw_unknown.
Qed.

Lemma points_after_start_witness :
  Stroke.points <$>
    strokes (applyDrawings Sample.env
               [(10, Sample.start_s1); (11, Sample.draw_s1);
                (12, Sample.draw_s2); (13, Sample.end_s1)] initial) !! "s1"
  = Some [Sample.p00; Sample.p55]
  ∧ handleRemoteDrawing Sample.env 11 Sample.draw_s1 initial = (initial, []).
Proof.
  split.
  - apply (proj1 points_after_start Sample.env 10 Sample.start_s1
             [(11, Sample.draw_s1); (12, Sample.draw_s2); (13, Sample.end_s1)]
             initial).
    + reflexivity.
    + vm_compute. reflexivity.
    + repeat constructor.
  - apply (proj2 points_after_start Sample.env 11 Sample.draw_s1 initial).
    + reflexivity.
    + vm_compute. reflexivity.
Defined.

(** C5, as stated, fails: the point of the ['start'] event comes first in
    the stroke, before the points of the ['draw'] events. *)
Lemma start_point_precedes_draw_points :
  Stroke.points <$>
    strokes (applyDrawings Sample.env
               [(10, Sample.start_s1); (11, Sample.draw_s1)] initial) !! "s1"
  = Some [Sample.p00; Sample.p55]
  ∧ drawPointsFor "s1" [(11, Sample.draw_s1)] = [Sample.p55]
  ∧ [Sample.p00; Sample.p55] ≠ [Sample.p55].
Proof.
  split; [by vm_compute|]. split; [by vm_compute|]. discriminate.
Qed.

(** C9, as amended: a ['start'] event whose colour is absent or empty, or
    whose width is absent, zero or NaN, changes nothing and emits nothing;
    when the model did not hold its stroke, the stroke stays out of the model
    through every later run of events that does not start it, and every
    ['draw'] event carrying its id is then a no-op. *)
Theorem start_without_color_or_width_dropped env now e st :
  DrawingEvent.type e = type_start →
  Js.truthy_opt Js.truthy_string (DrawingEvent.color e) = false
  ∨ Js.truthy_opt Js.truthy_number (DrawingEvent.width e) = false →
  handleRemoteDrawing env now e st = (st, [])
  ∧ (strokes st !! DrawingEvent.strokeId e = None →
     ∀ evs,
       Forall (λ ev, startsStroke (DrawingEvent.strokeId e) ev.2 = false) evs →
       let st' := applyDrawings env ((now, e) :: evs) st in
       strokes st' !! DrawingEvent.strokeId e = None
       ∧ ∀ now' d,
           DrawingEvent.type d = type_draw →
           DrawingEvent.strokeId d = DrawingEvent.strokeId e →
           handleRemoteDrawing env now' d st' = (st', [])).
Proof.
  intros Ht Hguard.
  assert (handleRemoteDrawing env now e st = (st, [])) as Hdrop.
  { unfold handleRemoteDrawing. rewrite Ht.
    destruct (canvas env); simpl; [|done].
    rewrite <-(setStrokes_id st) at 2. unfold setStrokes.
    by rewrite remoteStart_guard. }
  split; [done|]. intros Hnone evs Hall st'.
  assert (strokes st' !! DrawingEvent.strokeId e = None) as Hnone'.
  { unfold st'. rewrite applyDrawings_cons. simpl. rewrite Hdrop. simpl.
    by apply applyDrawings_absent. }
  split; [done|]. intros now' d Hd Hid.
  apply handleRemoteDrawing_draw_unknown; [done|]. by rewrite Hid.
Qed.

Lemma start_without_color_or_width_dropped_witness :
  (handleRemoteDrawing Sample.env 10 Sample.start_nocolor initial = (initial, [])
   ∧ handleRemoteDrawing Sample.env 10 Sample.start_width0 initial = (initial, []))
  ∧ strokes (applyDrawings Sample.env
               [(10, Sample.start_width0); (11, Sample.draw_s2);
                (12, Sample.start_s1); (13, Sample.draw_s2)] initial) !! "s2"
    = None.
Proof.
  split; [split|].
  - apply (start_without_color_or_width_dropped Sample.env 10
             Sample.start_nocolor initial); [reflexivity | left; reflexivity].
  - apply (start_without_color_or_width_dropped Sample.env 10
             Sample.start_width0 initial); [reflexivity | right; reflexivity].
  - apply (proj2 (start_without_color_or_width_dropped Sample.env 10
             Sample.start_width0 initial eq_refl (or_intror eq_refl)) eq_refl
             [(11, Sample.draw_s2); (12, Sample.start_s1); (13, Sample.draw_s2)]).
    repeat constructor.
Defined.

(** C9, as stated, fails: a dropped ['start'] does not silence the later
    ['draw'] events of its id when the model already holds a stroke of that
    id, nor when a later ['start'] of that id passes the guard: in both
    cases a later ['draw'] adds its point to the stroke. *)
Lemma dropped_start_does_not_silence_draws :
  let dropped_s1 :=
    DrawingEvent.mk type_start "s1" (Some Sample.p11) None (Some 2%float) in
  let good_s2 :=
    DrawingEvent.mk type_start "s2" (Some Sample.p00) (Some "#000")
      (Some 2%float) in
  let held := (handleRemoteDrawing Sample.env 10 Sample.start_s1 initial).1 in
  (handleRemoteDrawing Sample.env 11 dropped_s1 held = (held, [])
   ∧ Stroke.points <$>
       strokes (applyDrawings Sample.env
                  [(11, dropped_s1); (12, Sample.draw_s1)] held) !! "s1"
     = Some [Sample.p00; Sample.p55]
   ∧ handleRemoteDrawing Sample.env 12 Sample.draw_s1
       (handleRemoteDrawing Sample.env 11 dropped_s1 held).1
     ≠ ((handleRemoteDrawing Sample.env 11 dropped_s1 held).1, []))
  ∧ (handleRemoteDrawing Sample.env 10 Sample.start_nocolor initial
     = (initial, [])
     ∧ Stroke.points <$>
         strokes (applyDrawings Sample.env
                    [(10, Sample.start_nocolor); (11, good_s2);
                     (12, Sample.draw_s2)] initial) !! "s2"
       = Some [Sample.p00; Sample.p55]).
Proof.
  split; [split; [reflexivity|split]|split].
  - by vm_compute.
  - intros Heq.
    apply (f_equal (λ r, Stroke.points <$> strokes r.1 !! "s1")) in Heq.
    vm_compute in Heq. discriminate Heq.
  - reflexivity.
  - by vm_compute.
Qed.

End StrokeModel.

(** ** Local gestures and received events *)

Section LocalAndRemote.

Import Whiteboard.

Implicit Types (env : Env) (st : State) (e : DrawingEvent.t) (id : string).









(** The listener of [clear] runs [clearCanvas] whole, emission included. *)
Example received_clear_emits :
  (handleRemoteClear Sample.env initial).2 = [emit_clear].
Proof. reflexivity. Qed.

End LocalAndRemote.

(** ** The message log and the presence list *)

Section ChatModel.

Import Chat.

Implicit Types (env : Env) (st : State) (message : Message.t).

(** C2, as amended: sending a text message changes nothing in the sender's
    own state; with a current user and a socket, its only effect is to emit
    [chat_message] with the new message; the log gains a message when a
    [chat_message] event is received. *)
Theorem send_only_emits :
  (∀ env nowId nowTs rnd content st,
     (handleSendMessage env nowId nowTs rnd content st).1 = st)
  ∧ (∀ env nowId nowTs rnd content st cu r,
       currentUser st = Some cu →
       SocketService.socket (service env) = Some r →
       (handleSendMessage env nowId nowTs rnd content st).2
       = [socket_emit
            (SocketService.emit_chat_message r
               (Message.mk ("msg_" +:+ pretty nowId +:+ "_" +:+ rnd) type_text
                  content (User.name cu) nowTs None None None None None))])
  ∧ (∀ nowId nowTs message st,
       messages (receive nowId nowTs (chat_message message) st)
       = messages st ++ [message]).
Proof.
  split; [|split].
  - intros env nowId nowTs rnd content st. unfold handleSendMessage.
    by destruct (currentUser st).
  - intros env nowId nowTs rnd content st cu r Hcu Hsock.
    unfold handleSendMessage, sendMessage, SocketService.sendMessage.
    by rewrite Hcu, Hsock.
  - done.
Qed.

Lemma send_only_emits_witness :
  (handleSendMessage Sample.chatEnv 10 11 "abc" "hi" Sample.chat0).2
  = [socket_emit
       (SocketService.emit_chat_message 0
          (Message.mk "msg_10_abc" type_text "hi" "Ann" 11 None None None None
             None))].
Proof.
  apply (proj1 (proj2 send_only_emits) Sample.chatEnv 10 11 "abc" "hi"
           Sample.chat0 Sample.ann 0%nat); reflexivity.
Defined.

(** C2, as stated, fails: after sending, the sender's log is as empty as
    before; the message has only been emitted. *)
Lemma send_leaves_own_log :
  let r := handleSendMessage Sample.chatEnv 10 11 "abc" "hi" Sample.chat0 in
  messages Sample.chat0 = []
  ∧ messages r.1 = []
  ∧ emissionsOf r.2
    = [SocketService.emit_chat_message 0
         (Message.mk "msg_10_abc" type_text "hi" "Ann" 11 None None None None
            None)].
Proof. by vm_compute. Qed.

Lemma setOnline_id id b (u : User.t) : User.id (setOnline id b u) = User.id u.
Proof. unfold setOnline. by case_decide. Qed.

Lemma setOnline_ids id b (l : list User.t) :
  User.id <$> (setOnline id b <$> l) = User.id <$> l.
Proof.
  rewrite <-list_fmap_compose. apply list_fmap_ext.
  intros i u _. apply setOnline_id.
Qed.

Lemma known_false id (l : list User.t) (v : User.t) :
  known id l = false → v ∈ l → User.id v ≠ id.
Proof.
  unfold known. intros Hk Hv Hid.
  destruct (List.find _ l) eqn:Hf; [done|].
  pose proof (find_none _ _ Hf v) as Hn.
  specialize (Hn (proj1 (list_elem_of_In _ _) Hv)). simpl in Hn.
  by rewrite bool_decide_eq_true_2 in Hn.
Qed.

(** C6, as amended: no event other than [users_list] removes a user from
    the known users, whose ids only grow; [user_left] keeps the ids as they
    are and leaves every entry of the user who left offline.  ([users_list]
    replaces the known users by the list received.) *)
Theorem known_users_only_grow nowId nowTs ev st :
  (∀ l, ev ≠ users_list l) →
  let st' := receive nowId nowTs ev st in
  User.id <$> users st ⊆ User.id <$> users st'
  ∧ (∀ u, ev = user_left u →
       User.id <$> users st' = User.id <$> users st
       ∧ ∀ v, v ∈ users st' → User.id v = User.id u → User.isOnline v = false).
Proof.
  intros Hev st'. unfold st'. split.
  - destruct ev as [m|u|u|l|l]; simpl; try done.
    + unfold handleUserJoined. simpl.
      destruct (known (User.id u) (users st)).
      * by rewrite setOnline_ids.
      * rewrite fmap_app. intros x Hx. apply elem_of_app. by left.
    + unfold handleUserLeft.
      destruct (known (User.id u) (users st)); [|done].
      simpl. by rewrite setOnline_ids.
    + by destruct (Hev l).
  - intros u ->. simpl. unfold handleUserLeft.
    destruct (known (User.id u) (users st)) eqn:Hk; simpl.
    + split; [apply setOnline_ids|].
      intros v Hv Hid. apply list_elem_of_fmap in Hv as (v0 & -> & _).
      rewrite setOnline_id in Hid. unfold setOnline.
      by rewrite decide_True.
    + split; [done|]. intros v Hv Hid. by destruct (known_false _ _ _ Hk Hv).
Qed.

Lemma known_users_only_grow_witness :
  let st' := receive 10 11 (user_left Sample.ann) Sample.chat1 in
  User.id <$> users Sample.chat1 ⊆ User.id <$> users st'
  ∧ users st' = [User.mk "u1" "Ann" false; Sample.bob].
Proof.
  intros st'. split; [|reflexivity].
  apply (known_users_only_grow 10 11 (user_left Sample.ann) Sample.chat1).
  intros l. discriminate.
Defined.

(** C6, as stated, fails: a [users_list] event replaces the known users. *)
Lemma users_list_replaces_known_users :
  let st' := receive 10 11 (users_list [Sample.bob]) Sample.chat1 in
  "u1" ∈ User.id <$> users Sample.chat1
  ∧ "u1" ∉ User.id <$> users st'.
Proof.
  split; [by left|]. simpl. intros H%list_elem_of_In. simpl in H.
  destruct H as [H|[]]. discriminate H.
Qed.

(** What [handleDeleteMessage] does once the user has confirmed the
    deletion of a message that is not a system message. *)
Lemma handleDeleteMessage_confirmed env message st :
  isSystem (Message.type message) = false →
  confirm env deletePrompt = true →
  handleDeleteMessage env message st
  = match (deleteRequest env message).2 with
    | Api.resolved =>
        (setMessages
           (λ prev, filter (λ msg, Message.id msg ≠ Message.id message) prev)
           st,
         http <$> (deleteRequest env message).1)
    | Api.rejected _ =>
        (st, (http <$> (deleteRequest env message).1)
             ++ [alert "Failed to delete message. Please try again."])
    end.
Proof.
  intros Hsys Hconf. unfold handleDeleteMessage. rewrite Hsys, Hconf. simpl.
  by destruct (deleteRequest env message) as [reqs []].
Qed.

Lemma handleDeleteMessage_declined env message st :
  isSystem (Message.type message) = true ∨ confirm env deletePrompt = false →
  handleDeleteMessage env message st = (st, []).
Proof.
  unfold handleDeleteMessage. intros [->| ->]; [done|].
  by destruct (isSystem _).
Qed.

Lemma emissionsOf_http reqs : emissionsOf (http <$> reqs) = [].
Proof. by induction reqs. Qed.

Lemma requestsOf_http reqs : requestsOf (http <$> reqs) = reqs.
Proof. induction reqs as [|r reqs IH]; [done|]. cbn. f_equal. apply IH. Qed.

(** The handler, by cases. *)
Lemma handleDeleteMessage_cases env message st :
  handleDeleteMessage env message st = (st, [])
  ∨ (∃ err,
       (deleteRequest env message).2 = Api.rejected err
       ∧ handleDeleteMessage env message st
         = (st, (http <$> (deleteRequest env message).1)
                ++ [alert "Failed to delete message. Please try again."]))
  ∨ (isSystem (Message.type message) = false
     ∧ confirm env deletePrompt = true
     ∧ (deleteRequest env message).2 = Api.resolved
     ∧ handleDeleteMessage env message st
       = (setMessages
            (λ prev, filter (λ msg, Message.id msg ≠ Message.id message) prev)
            st,
          http <$> (deleteRequest env message).1)).
Proof.
  destruct (isSystem (Message.type message)) eqn:Hsys.
  { left. apply handleDeleteMessage_declined. by left. }
  destruct (confirm env deletePrompt) eqn:Hconf.
  2:{ left. apply handleDeleteMessage_declined. by right. }
  rewrite (handleDeleteMessage_confirmed env message st Hsys Hconf).
  destruct (deleteRequest env message).2 as [|err] eqn:Hout.
  - right. right. done.
  - right. left. by exists err.
Qed.

(** The request of the [try] block, in terms of the backend: one [DELETE]
    request, to the message's address or to the address of its file, which
    resolves exactly when the backend answers it with an [ok] response. *)
Lemma deleteRequest_fetch env message :
  ∃ url,
    (url = BACKEND_URL env +:+ "/messages/" +:+ Message.id message
     ∨ ∃ fid,
         Message.fileId message = Some fid
         ∧ url = BACKEND_URL env +:+ "/files/" +:+ fid)
    ∧ (deleteRequest env message).1 = [Api.request "DELETE" url]
    ∧ ((deleteRequest env message).2 = Api.resolved
       ↔ ∃ t, fetch env "DELETE" url = Api.response true t).
Proof.
  unfold deleteRequest, Api.deleteFile, Api.deleteMessage, Api.deleteAt.
  destruct (Message.fileId message) as [fid|] eqn:Hfid.
  - destruct (isFile (Message.type message) && Js.truthy_string fid).
    + exists (BACKEND_URL env +:+ "/files/" +:+ fid).
      split; [right; by exists fid|]. split; [done|]. simpl.
      destruct (fetch env "DELETE" _) as [[] t|msg]; split; try done;
        try (by intros [t' Ht']). intros _. by exists t.
    + exists (BACKEND_URL env +:+ "/messages/" +:+ Message.id message).
      split; [by left|]. split; [done|]. simpl.
      destruct (fetch env "DELETE" _) as [[] t|msg]; split; try done;
        try (by intros [t' Ht']). intros _. by exists t.
  - exists (BACKEND_URL env +:+ "/messages/" +:+ Message.id message).
    split; [by left|]. split; [done|]. simpl.
    destruct (fetch env "DELETE" _) as [[] t|msg]; split; try done;
      try (by intros [t' Ht']). intros _. by exists t.
Qed.

(** C7: deleting a message emits nothing on the socket, so the relay is
    sent nothing, sends nothing, and the state of every other client is
    left as it is; the state of the deleting client changes only when the
    one [DELETE] request it made has been answered with an [ok] response;
    when the request made is not answered so, the state is unchanged; and
    once the user has confirmed, exactly one [DELETE] request is made, to
    the address of the message or of its file, and if it is answered [ok]
    the log is the old one without the entries of that message id. *)
Theorem delete_is_local_and_gated env message st :
  let r := handleDeleteMessage env message st in
  emissionsOf r.2 = []
  ∧ (∀ n sender server clock c peer,
       Session.relay n sender (emissionsOf r.2) server = (server, [])
       ∧ Session.peerReceives clock c
           (Session.relay n sender (emissionsOf r.2) server).2 peer
         = peer)
  ∧ (r.1 ≠ st →
     ∃ url t,
       r.2 = [http (Api.request "DELETE" url)]
       ∧ fetch env "DELETE" url = Api.response true t)
  ∧ (∀ url,
       http (Api.request "DELETE" url) ∈ r.2 →
       (∀ t, fetch env "DELETE" url ≠ Api.response true t) →
       r.1 = st)
  ∧ (isSystem (Message.type message) = false →
     confirm env deletePrompt = true →
     ∃ url,
       (url = BACKEND_URL env +:+ "/messages/" +:+ Message.id message
        ∨ ∃ fid,
            Message.fileId message = Some fid
            ∧ url = BACKEND_URL env +:+ "/files/" +:+ fid)
       ∧ requestsOf r.2 = [Api.request "DELETE" url]
       ∧ (∀ t,
            fetch env "DELETE" url = Api.response true t →
            messages r.1
            = filter (λ msg, Message.id msg ≠ Message.id message)
                (messages st))).
Proof.
  intros r.
  destruct (deleteRequest_fetch env message) as (url & Hshape & Hreq & Hres).
  assert (emissionsOf r.2 = []) as Hquiet.
  { unfold r.
    destruct (handleDeleteMessage_cases env message st)
      as [->|[(err & _ & ->)|(_ & _ & _ & ->)]]; simpl.
    - done.
    - unfold emissionsOf. rewrite omap_app.
      fold (emissionsOf (http <$> (deleteRequest env message).1)).
      by rewrite emissionsOf_http.
    - apply emissionsOf_http. }
  split; [exact Hquiet|]. split; [by rewrite Hquiet|].
  unfold r.
  destruct (handleDeleteMessage_cases env message st)
    as [Heq|[(err & Hout & Heq)|(Hsys & Hconf & Hout & Heq)]].
  - rewrite Heq. simpl. split; [done|]. split; [done|].
    intros Hsys Hconf.
    rewrite (handleDeleteMessage_confirmed env message st Hsys Hconf) in Heq.
    destruct (deleteRequest env message).2 eqn:Hout.
    + rewrite Hreq in Heq. discriminate Heq.
    + rewrite Hreq in Heq. discriminate Heq.
  - rewrite Heq. simpl. split; [done|]. split; [done|].
    intros _ _. exists url. split; [exact Hshape|]. split.
    + unfold requestsOf. rewrite omap_app, Hreq. done.
    + intros t Ht. assert ((deleteRequest env message).2 = Api.resolved) as Hr
        by (apply Hres; by exists t). congruence.
  - destruct (proj1 Hres Hout) as [t Ht].
    rewrite Heq, Hreq. simpl. split; [intros _; by exists url, t|]. split.
    + intros url' Hin Hno. apply list_elem_of_singleton in Hin.
      injection Hin as ->. by destruct (Hno t).
    + intros _ _. exists url. done.
Qed.

Lemma delete_is_local_and_gated_witness :
  (handleDeleteMessage Sample.chatEnvFailing Sample.m1 Sample.chat1).1
  = Sample.chat1
  ∧ messages (handleDeleteMessage Sample.chatEnv Sample.m1 Sample.chat1).1
    = [Sample.f1; Sample.f_noid; Sample.f_emptyid].
Proof.
  split.
  - apply (proj1 (proj2 (proj2 (proj2
             (delete_is_local_and_gated Sample.chatEnvFailing Sample.m1
                Sample.chat1))))
             "http://localhost:8000/messages/m1").
    + vm_compute. apply list_elem_of_here.
    + intros t. discriminate.
  - destruct (proj2 (proj2 (proj2 (proj2
               (delete_is_local_and_gated Sample.chatEnv Sample.m1
                  Sample.chat1)))) eq_refl eq_refl)
      as (url & _ & _ & Hlog).
    exact (Hlog "OK" eq_refl).
Defined.

(** The one request of the [try] block, by cases on the message. *)
Lemma deleteRequest_file env message fid :
  Message.type message = type_file →
  Message.fileId message = Some fid →
  Js.truthy_string fid = true →
  (deleteRequest env message).1
  = [Api.request "DELETE" (BACKEND_URL env +:+ "/files/" +:+ fid)].
Proof.
  intros Ht Hf Hfid. unfold deleteRequest. by rewrite Ht, Hf, Hfid.
Qed.

Lemma deleteRequest_message env message :
  isFile (Message.type message)
  && Js.truthy_opt Js.truthy_string (Message.fileId message) = false →
  (deleteRequest env message).1
  = [Api.request "DELETE"
       (BACKEND_URL env +:+ "/messages/" +:+ Message.id message)].
Proof.
  unfold deleteRequest. destruct (Message.fileId message); simpl; [|done].
  by intros ->.
Qed.

(** The requests of the handler are those of its [try] block, or none. *)
Lemma handleDeleteMessage_requests env message st :
  requestsOf (handleDeleteMessage env message st).2 = []
  ∨ (isSystem (Message.type message) = false
     ∧ confirm env deletePrompt = true
     ∧ requestsOf (handleDeleteMessage env message st).2
       = (deleteRequest env message).1).
Proof.
  destruct (handleDeleteMessage_cases env message st)
    as [->|[(err & Hout & Heq)|(Hsys & Hconf & Hout & ->)]]; simpl.
  - by left.
  - destruct (isSystem (Message.type message)) eqn:Hsys.
    { rewrite handleDeleteMessage_declined by (by left). by left. }
    destruct (confirm env deletePrompt) eqn:Hconf.
    2:{ rewrite handleDeleteMessage_declined by (by right). by left. }
    right. rewrite Heq. simpl. unfold requestsOf. rewrite omap_app. simpl.
    fold (requestsOf (http <$> (deleteRequest env message).1)).
    by rewrite requestsOf_http, app_nil_r.
  - right. by rewrite requestsOf_http.
Qed.

(** C10, as amended: deleting a file message that carries a non-empty
    [fileId] issues the file-delete request and no other; the message-delete
    request is issued only for the message being deleted, and only when it
    is not a system message and not a file message with a non-empty
    [fileId]: for text messages, and for file messages whose [fileId] is
    absent or empty. *)
Theorem delete_endpoint_choice env message st :
  let r := handleDeleteMessage env message st in
  (∀ fid,
     Message.type message = type_file →
     Message.fileId message = Some fid →
     Js.truthy_string fid = true →
     confirm env deletePrompt = true →
     requestsOf r.2
     = [Api.request "DELETE" (BACKEND_URL env +:+ "/files/" +:+ fid)])
  ∧ (∀ x,
       Api.request "DELETE" (BACKEND_URL env +:+ "/messages/" +:+ x)
         ∈ requestsOf r.2 →
       x = Message.id message
       ∧ Message.type message ≠ type_system
       ∧ ¬ (Message.type message = type_file
            ∧ Js.truthy_opt Js.truthy_string (Message.fileId message) = true)).
Proof.
  intros r. unfold r. split.
  - intros fid Ht Hf Hfid Hconf.
    destruct (handleDeleteMessage_requests env message st)
      as [Hnone|(_ & _ & ->)]; [|by apply deleteRequest_file].
    rewrite handleDeleteMessage_confirmed in Hnone |- *;
      [|by rewrite Ht|done|by rewrite Ht|done].
    rewrite <-(deleteRequest_file env message fid Ht Hf Hfid).
    destruct (deleteRequest env message).2; simpl.
    + by rewrite requestsOf_http.
    + unfold requestsOf. rewrite omap_app. simpl.
      fold (requestsOf (http <$> (deleteRequest env message).1)).
      by rewrite requestsOf_http, app_nil_r.
  - intros x Hx.
    destruct (handleDeleteMessage_requests env message st)
      as [Hnone|(Hsys & _ & Hreq)].
    { rewrite Hnone in Hx. by apply not_elem_of_nil in Hx. }
    rewrite Hreq in Hx.
    destruct (isFile (Message.type message)
              && Js.truthy_opt Js.truthy_string (Message.fileId message))
      eqn:Hfile.
    + apply andb_prop in Hfile as [Ht Hfid].
      destruct (Message.type message) eqn:Hty; try done.
      destruct (Message.fileId message) as [fid|] eqn:Hf; [|done].
      rewrite (deleteRequest_file env message fid Hty Hf Hfid) in Hx.
      apply list_elem_of_singleton in Hx. injection Hx as Hx.
      apply (inj (String.app _)) in Hx. discriminate Hx.
    + rewrite (deleteRequest_message env message Hfile) in Hx.
      apply list_elem_of_singleton in Hx. injection Hx as Hx.
      do 2 apply (inj (String.app _)) in Hx. subst x.
      split; [done|]. split.
      * intros Hty. by rewrite Hty in Hsys.
      * intros [Hty Hfid]. by rewrite Hty, Hfid in Hfile.
Qed.

Lemma delete_endpoint_choice_witness :
  requestsOf (handleDeleteMessage Sample.chatEnv Sample.f1 Sample.chat1).2
  = [Api.request "DELETE" "http://localhost:8000/files/f1"].
Proof.
  apply (proj1 (delete_endpoint_choice Sample.chatEnv Sample.f1 Sample.chat1)
           "f1"); reflexivity.
Defined.

(** C10, as stated, fails: for a file message whose [fileId] is absent or
    empty, the request issued is the message-delete request. *)
Lemma file_message_without_fileId :
  Message.type Sample.f_noid = type_file
  ∧ requestsOf (handleDeleteMessage Sample.chatEnv Sample.f_noid Sample.chat1).2
    = [Api.request "DELETE" "http://localhost:8000/messages/m3"]
  ∧ Message.type Sample.f_emptyid = type_file
  ∧ requestsOf
      (handleDeleteMessage Sample.chatEnv Sample.f_emptyid Sample.chat1).2
    = [Api.request "DELETE" "http://localhost:8000/messages/m4"].
Proof. by vm_compute. Qed.

End ChatModel.

(** ** The socket service *)

Section Connection.

Import SocketService.

(** A socket just made by [io] is not connected. *)
Lemma connected_after_io (w : Sockets) :
  connected (io w).2 {| socket := Some (io w).1 |} = false.
Proof.
  unfold connected, io. cbn [socket fst snd].
  by rewrite (list_lookup_middle w [] false (length w) eq_refl).
Qed.

(** C8, as amended: [connect] returns the stored socket, and makes no
    socket, when the stored socket reports connected; with no stored socket,
    or one that is not connected, it makes a new socket and stores it; a
    [connect] that follows a [connect] returns the same socket, and makes
    none, once the connection of the first has been established. *)
Theorem connect_returns_open_socket :
  (∀ s w r,
     socket s = Some r → w !! r = Some true → connect s w = (r, s, w))
  ∧ (∀ s w,
       connected w s = false →
       connect s w
       = (length w, {| socket := Some (length w) |}, w ++ [false]))
  ∧ (∀ s w,
       let c := connect s w in
       let w' := established c.1.1 c.2 in
       connect c.1.2 w' = (c.1.1, c.1.2, w')).
Proof.
  split; [|split].
  - intros s w r Hs Hr. unfold connect, connected. by rewrite Hs, Hr.
  - intros s w Hc. unfold connect. rewrite Hc. by destruct (socket s).
  - intros s w c w'. unfold w', c, connect, established.
    destruct (socket s) as [r|] eqn:Hs.
    + destruct (connected w s) eqn:Hc; simpl.
      * unfold connected in *. rewrite Hs in *. simpl.
        destruct (w !! r) as [b|] eqn:Hr; simpl in Hc; [|done]. subst b.
        rewrite list_lookup_insert_eq by (by eapply lookup_lt_Some). done.
      * unfold connected. simpl.
        rewrite list_lookup_insert_eq
          by (rewrite length_app; simpl; lia).
        done.
    + simpl. unfold connected. simpl.
      rewrite list_lookup_insert_eq by (rewrite length_app; simpl; lia).
      done.
Qed.

Lemma connect_returns_open_socket_witness :
  connect {| socket := Some 0%nat |} [true] = (0%nat, {| socket := Some 0%nat |}, [true])
  ∧ connect {| socket := Some 0%nat |} [false]
    = (1%nat, {| socket := Some 1%nat |}, [false; false]).
Proof.
  split.
  - apply (proj1 connect_returns_open_socket {| socket := Some 0%nat |}
             [true] 0%nat); reflexivity.
  - apply (proj1 (proj2 connect_returns_open_socket)
             {| socket := Some 0%nat |} [false]); reflexivity.
Defined.

(** C8, as stated, fails: a second [connect] right after the first makes a
    second socket and returns it, where a single [connect] makes one. *)
Lemma connect_twice_makes_two_sockets :
  let c1 := connect initial [] in
  let c2 := connect c1.1.2 c1.2 in
  c1 = (0%nat, {| socket := Some 0%nat |}, [false])
  ∧ c2 = (1%nat, {| socket := Some 1%nat |}, [false; false])
  ∧ c2.1.1 ≠ c1.1.1.
Proof. split; [done|]. split; [done|]. discriminate. Qed.

End Connection.

(** ** The relay *)

Section RelayRouting.

Import Relay.

Lemma filter_others_absent (sender : nat) (l : list nat) :
  sender ∉ l → filter (λ c, c ≠ sender) l = l.
Proof.
  induction l as [|c l IH]; intros Hnin; [done|].
  apply not_elem_of_cons in Hnin as [Hne Hnin].
  rewrite filter_cons_True by done. by rewrite IH.
Qed.

Lemma filter_others_length (sender : nat) (l : list nat) :
  NoDup l → sender ∈ l →
  length (filter (λ c, c ≠ sender) l) = (length l - 1)%nat.
Proof.
  induction l as [|c l IH]; intros Hnd Hin; [by apply not_elem_of_nil in Hin|].
  apply NoDup_cons in Hnd as [Hc Hnd].
  destruct (decide (c = sender)) as [->|Hne].
  - rewrite filter_cons_False by (intros H; by apply H).
    simpl. rewrite Nat.sub_0_r. by rewrite filter_others_absent.
  - rewrite filter_cons_True by done. simpl.
    apply elem_of_cons in Hin as [->|Hin]; [done|].
    rewrite IH by done. destruct l; [by apply not_elem_of_nil in Hin|].
    simpl. lia.
Qed.

Lemma recipients_broadcast sender o s :
  recipients (name o) (broadcast sender o s)
  = filter (λ c, c ≠ sender) (connections s).
Proof.
  unfold recipients, broadcast.
  induction (filter _ (connections s)) as [|c l IH]; [done|].
  rewrite fmap_cons, filter_cons_True by done.
  rewrite fmap_cons. simpl. f_equal. apply IH.
Qed.

Lemma others_not_sender (sender : nat) (l : list nat) :
  sender ∉ filter (λ c, c ≠ sender) l.
Proof. intros [Hne _]%list_elem_of_filter. done. Qed.

(** The connections that are sent the rebroadcast of an inbound event. *)
Lemma recipients_handle n sender ev s :
  (ev = closes → is_Some (identity s !! sender)) →
  recipients (relayed ev) (handle n sender ev s).2
  = filter (λ c, c ≠ sender) (connections s).
Proof.
  intros Hjoined. destruct ev as [userId userName|m|e| |]; simpl.
  - unfold recipients at 1. rewrite filter_cons_False by done.
    etrans;
      [apply (recipients_broadcast sender (out_user_joined userId userName))|].
    done.
  - etrans; [apply (recipients_broadcast sender (out_chat_message m))|done].
  - apply (recipients_broadcast sender (out_drawing e)).
  - apply (recipients_broadcast sender out_clear).
  - destruct (Hjoined eq_refl) as [[userId userName] ->]. simpl.
    etrans;
      [apply (recipients_broadcast sender (out_user_left userId userName))|].
    simpl. apply filter_others_absent, others_not_sender.
Qed.

(** C1: when one of the open connections sends [chat_message], [drawing],
    [clear] or [join_chat], or closes after having joined, the relay sends
    the corresponding event to every other open connection, once each, and
    not to the connection it came from: to N−1 of N connections. *)
Theorem relay_excludes_sender n s sender ev :
  NoDup (connections s) →
  sender ∈ connections s →
  (ev = closes → is_Some (identity s !! sender)) →
  let rs := recipients (relayed ev) (handle n sender ev s).2 in
  length rs = (length (connections s) - 1)%nat
  ∧ (sender ∉ rs)
  ∧ NoDup rs
  ∧ (∀ c, c ∈ connections s → c ≠ sender → c ∈ rs).
Proof.
  intros Hnd Hin Hjoined rs. unfold rs.
  rewrite (recipients_handle n sender ev s Hjoined).
  split; [by apply filter_others_length|].
  split; [apply others_not_sender|].
  split; [by apply NoDup_filter|].
  intros c Hc Hne. by apply list_elem_of_filter.
Qed.

Lemma relay_excludes_sender_witness :
  recipients "chat_message"
    (handle 50 0%nat (chat_message Sample.m1) Sample.relay3).2 = [1; 2]%nat
  ∧ length (recipients "user_left" (handle 50 0%nat closes Sample.relay3).2)
    = 2%nat.
Proof.
  split; [reflexivity|].
  apply (relay_excludes_sender 50 Sample.relay3 0%nat closes).
  - compute_done.
  - by left.
  - intros _. by eexists.
Defined.

End RelayRouting.

(** * Further properties of the code *)

(** ** The whiteboard as a whole *)

Section WhiteboardRuns.

Import Whiteboard.

Implicit Types (env : Env) (st : State) (e : DrawingEvent.t) (id : string).

Lemma run_from env ops : ∀ st acc,
  foldl (λ r op, andThen r (step env op)) (st, acc) ops
  = ((run env ops st).1, acc ++ (run env ops st).2).
Proof.
  unfold run. induction ops as [|op ops IH]; intros st acc.
  - simpl. by rewrite app_nil_r.
  - cbn [foldl]. unfold andThen at 2 4 6. cbn [fst snd].
    rewrite (IH _ (acc ++ _)), (IH _ ([] ++ _)). cbn [fst snd app].
    by rewrite <-app_assoc.
Qed.

Lemma run_cons env op ops st :
  run env (op :: ops) st
  = ((run env ops (step env op st).1).1,
     (step env op st).2 ++ (run env ops (step env op st).1).2).
Proof.
  unfold run at 1. cbn [foldl]. unfold andThen at 2. cbn [fst snd app].
  apply run_from.
Qed.

(** A property of the state that every operation keeps holds after a run. *)
Lemma run_invariant env (P : State → Prop) :
  (∀ op st, P st → P (step env op st).1) →
  ∀ ops st, P st → P (run env ops st).1.
Proof.
  intros Hstep. induction ops as [|op ops IH]; intros st HP; [done|].
  rewrite run_cons. cbn [fst]. apply IH, Hstep, HP.
Qed.

(** X1: whatever the received events and the local gestures, every stroke
    of the map is stored under its own id. *)
Theorem strokes_stored_under_own_id env ops st :
  wellKeyed st → wellKeyed (run env ops st).1.
Proof.
  revert ops st. apply run_invariant. intros op st Hk k s.
  destruct op as [now e| |nowId nowTs rnd p|p| |c|w| ]; simpl; try apply Hk.
  - unfold handleRemoteDrawing. destruct (canvas env); simpl; [|apply Hk].
    destruct (DrawingEvent.type e); simpl; [| |apply Hk].
    + unfold remoteStart.
      destruct (DrawingEvent.color e) as [c|], (DrawingEvent.width e) as [w|];
        try apply Hk.
      destruct (Js.truthy_string c && Js.truthy_number w); [|apply Hk].
      destruct (decide (DrawingEvent.strokeId e = k)) as [<-|Hne].
      * rewrite lookup_insert_eq. by intros [= <-].
      * rewrite lookup_insert_ne by done. apply Hk.
    + unfold remoteDraw. destruct (DrawingEvent.point e) as [p|]; [|apply Hk].
      destruct (strokes st !! DrawingEvent.strokeId e) as [old|] eqn:Hold;
        [|apply Hk].
      destruct (decide (DrawingEvent.strokeId e = k)) as [<-|Hne].
      * rewrite lookup_insert_eq. intros [= <-]. simpl. by apply Hk.
      * rewrite lookup_insert_ne by done. apply Hk.
  - by rewrite lookup_empty.
  - unfold draw. destruct (isDrawing st), (currentStroke st); apply Hk.
  - unfold stopDrawing.
    destruct (isDrawing st), (currentStroke st) as [cs|]; simpl; try apply Hk.
    destruct (decide (Stroke.id cs = k)) as [<-|Hne].
    + rewrite lookup_insert_eq. by intros [= <-].
    + rewrite lookup_insert_ne by done. apply Hk.
  - by rewrite lookup_empty.
Qed.

Lemma strokes_stored_under_own_id_witness :
  wellKeyed
    (run Sample.env
       [on_drawing 10 Sample.start_s1; press 11 11 "abc" Sample.p00;
        on_drawing 12 Sample.draw_s1; release] initial).1.
Proof.
  apply (strokes_stored_under_own_id Sample.env
           [on_drawing 10 Sample.start_s1; press 11 11 "abc" Sample.p00;
            on_drawing 12 Sample.draw_s1; release] initial).
  intros k s Hs. vm_compute in Hs. discriminate Hs.
Defined.

(** X2: whatever the received events and the local gestures, a stroke is
    staged only while the pointer is down ([isDrawing]), and a staged
    stroke has at least one point. *)
Theorem staged_only_while_drawing env ops st :
  wellStaged st → wellStaged (run env ops st).1.
Proof.
  revert ops st. apply run_invariant. intros op st Hs cs.
  destruct op as [now e| |nowId nowTs rnd p|p| |c|w| ]; simpl; try apply Hs;
    try done.
  - unfold handleRemoteDrawing. destruct (canvas env); simpl; [|apply Hs].
    destruct (DrawingEvent.type e); apply Hs.
  - by intros [= <-].
  - unfold draw.
    destruct (isDrawing st) eqn:Hd, (currentStroke st) as [cur|] eqn:Hc;
      simpl; rewrite ?Hd, ?Hc; try done.
    + intros [= <-]. split; [done|]. simpl. by destruct (Stroke.points cur).
    + destruct (Hs cur Hc) as [Hd' _]. congruence.
  - unfold stopDrawing.
    destruct (isDrawing st) eqn:Hd, (currentStroke st) as [cur|] eqn:Hc;
      simpl; rewrite ?Hd, ?Hc; try done.
    destruct (Hs cur Hc) as [Hd' _]. congruence.
Qed.

Lemma staged_only_while_drawing_witness :
  wellStaged Sample.midGesture.
Proof.
  apply (staged_only_while_drawing Sample.env
           [press 10 10 "abc" Sample.p00; move Sample.p55] initial).
  intros cs Hcs. discriminate Hcs.
Defined.

(** A received event leaves the strokes of other ids as they are. *)
Lemma handleRemoteDrawing_other env now e st id :
  DrawingEvent.strokeId e ≠ id →
  strokes (handleRemoteDrawing env now e st).1 !! id = strokes st !! id.
Proof.
  intros Hne. unfold handleRemoteDrawing.
  destruct (canvas env); simpl; [|done].
  destruct (DrawingEvent.type e); simpl; [| |done].
  - unfold remoteStart.
    destruct (DrawingEvent.color e) as [c|], (DrawingEvent.width e) as [w|];
      try done.
    destruct (Js.truthy_string c && Js.truthy_number w); [|done].
    by rewrite lookup_insert_ne.
  - unfold remoteDraw. destruct (DrawingEvent.point e) as [p|]; [|done].
    destruct (strokes st !! DrawingEvent.strokeId e); [|done].
    by rewrite lookup_insert_ne.
Qed.

(** What a received event does to the stroke of its id depends on that
    stroke alone. *)
Lemma handleRemoteDrawing_same env now e st1 st2 :
  strokes st1 !! DrawingEvent.strokeId e = strokes st2 !! DrawingEvent.strokeId e →
  strokes (handleRemoteDrawing env now e st1).1 !! DrawingEvent.strokeId e
  = strokes (handleRemoteDrawing env now e st2).1 !! DrawingEvent.strokeId e.
Proof.
  intros Heq. unfold handleRemoteDrawing.
  destruct (canvas env); simpl; [|done].
  destruct (DrawingEvent.type e); simpl; [| |done].
  - unfold remoteStart.
    destruct (DrawingEvent.color e) as [c|], (DrawingEvent.width e) as [w|];
      try done.
    destruct (Js.truthy_string c && Js.truthy_number w); [|done].
    by rewrite !lookup_insert_eq.
  - unfold remoteDraw. destruct (DrawingEvent.point e) as [p|]; [|done].
    rewrite <-Heq.
    destruct (strokes st1 !! DrawingEvent.strokeId e) eqn:H1; [|by rewrite H1].
    by rewrite !lookup_insert_eq.
Qed.

(** X3: strokes are independent: what the model holds for a stroke after a
    run of received events is what it would hold had only the events
    carrying that stroke's id been received, in the same order. *)
Theorem strokes_are_independent env evs st id :
  strokes (applyDrawings env evs st) !! id
  = strokes
      (applyDrawings env
         (filter (λ ev, DrawingEvent.strokeId ev.2 = id) evs) st) !! id.
Proof.
  assert (∀ st1 st2,
    strokes st1 !! id = strokes st2 !! id →
    strokes (applyDrawings env evs st1) !! id
    = strokes
        (applyDrawings env
           (filter (λ ev, DrawingEvent.strokeId ev.2 = id) evs) st2) !! id)
    as Hgen; [|by apply Hgen].
  induction evs as [|[now e] evs IH]; intros st1 st2 Heq; [done|].
  rewrite applyDrawings_cons. cbn [fst snd].
  destruct (decide (DrawingEvent.strokeId e = id)) as [Hid|Hne].
  - rewrite filter_cons_True by done. rewrite applyDrawings_cons.
    cbn [fst snd]. apply IH. subst id. by apply handleRemoteDrawing_same.
  - rewrite filter_cons_False by done. apply IH.
    by rewrite handleRemoteDrawing_other.
Qed.

(** X4: while the canvas is not mounted (or yields no 2d context), received
    drawing events are dropped: the state after any run of them is the state
    before. *)
Theorem unmounted_canvas_drops_events env evs st :
  canvas env = false → applyDrawings env evs st = st.
Proof.
  intros Hc. induction evs as [|[now e] evs IH]; [done|].
  rewrite applyDrawings_cons. unfold handleRemoteDrawing at 1. rewrite Hc.
  exact IH.
Qed.

Lemma unmounted_canvas_drops_events_witness :
  applyDrawings {| canvas := false; socket := true |}
    [(10, Sample.start_s1); (11, Sample.draw_s1)] initial = initial.
Proof.
  apply (unmounted_canvas_drops_events {| canvas := false; socket := true |}
           [(10, Sample.start_s1); (11, Sample.draw_s1)] initial).
  reflexivity.
Defined.

(** X5: received events that do not start a stroke anew never change its
    id, colour, width or creation time, whatever fields they carry. *)
Theorem received_events_keep_style env evs st id s :
  strokes st !! id = Some s →
  Forall (λ ev, startsStroke id ev.2 = false) evs →
  ∃ s',
    strokes (applyDrawings env evs st) !! id = Some s'
    ∧ Stroke.id s' = Stroke.id s
    ∧ Stroke.color s' = Stroke.color s
    ∧ Stroke.width s' = Stroke.width s
    ∧ Stroke.timestamp s' = Stroke.timestamp s.
Proof.
  intros Hs Hall.
  destruct (applyDrawings_stroke env evs st id s Hs Hall) as (ps & Hs' & _).
  eexists. split; [exact Hs'|]. done.
Qed.

Lemma received_events_keep_style_witness :
  ∃ s',
    strokes (applyDrawings Sample.env
               [(11, DrawingEvent.mk type_draw "s1" (Some Sample.p55)
                       (Some "#f00") (Some 9%float))]
               (handleRemoteDrawing Sample.env 10 Sample.start_s1 initial).1)
      !! "s1" = Some s'
    ∧ Stroke.id s' = "s1"
    ∧ Stroke.color s' = "#000"
    ∧ Stroke.width s' = 2%float
    ∧ Stroke.timestamp s' = 10.
Proof.
  apply (received_events_keep_style Sample.env
           [(11, DrawingEvent.mk type_draw "s1" (Some Sample.p55)
                   (Some "#f00") (Some 9%float))]
           (handleRemoteDrawing Sample.env 10 Sample.start_s1 initial).1 "s1"
           (Stroke.mk "s1" [Sample.p00] "#000" 2%float 10)).
  - vm_compute. reflexivity.
  - repeat constructor.
Defined.



(** X7: a clear, received or local, abandons the gesture under way: until
    the next press, moves and the release change nothing and emit nothing,
    and the stroke that was staged is never written to the map. *)
Theorem clear_abandons_gesture env ops st :
  Forall (λ op, (∃ p, op = move p) ∨ op = release) ops →
  run env ops (clearCanvas env st).1 = ((clearCanvas env st).1, []).
Proof.
  intros Hall. set (st0 := (clearCanvas env st).1).
  assert (currentStroke st0 = None) as Hnone by done. clearbody st0.
  induction Hall as [|op ops Hop Hall IH]; [done|].
  rewrite run_cons.
  assert (step env op st0 = (st0, [])) as ->.
  { destruct Hop as [[p ->]| ->]; simpl.
    - unfold draw. rewrite Hnone. by destruct (isDrawing st0).
    - unfold stopDrawing. rewrite Hnone. by destruct (isDrawing st0). }
  cbn [fst snd app]. by rewrite IH.
Qed.

Lemma clear_abandons_gesture_witness :
  run Sample.env [move Sample.p11; release]
    (clearCanvas Sample.env Sample.midGesture).1
  = ((clearCanvas Sample.env Sample.midGesture).1, [])
  ∧ strokes (clearCanvas Sample.env Sample.midGesture).1 = ∅.
Proof.
  split; [|reflexivity].
  apply (clear_abandons_gesture Sample.env [move Sample.p11; release]
           Sample.midGesture).
  constructor; [left; by eexists|]. constructor; [by right|]. constructor.
Defined.

(** X8: the state of the whiteboard does not depend on the socket: with or
    without it, the same operations lead to the same state; without it,
    nothing is emitted. *)
Theorem state_ignores_socket env env' ops st :
  canvas env = canvas env' →
  (run env ops st).1 = (run env' ops st).1
  ∧ (socket env = false → (run env ops st).2 = []).
Proof.
  intros Hc.
  assert (∀ op st0, (step env op st0).1 = (step env' op st0).1) as Hstate.
  { intros op st0.
    destruct op as [now e| |nowId nowTs rnd p|p| |c|w| ]; simpl; try done.
    - unfold handleRemoteDrawing. rewrite Hc.
      destruct (canvas env'); simpl; [|done].
      by destruct (DrawingEvent.type e).
    - unfold draw. by destruct (isDrawing st0), (currentStroke st0).
    - unfold stopDrawing. by destruct (isDrawing st0), (currentStroke st0). }
  assert (socket env = false → ∀ op st0, (step env op st0).2 = []) as Hquiet.
  { intros Hs op st0.
    destruct op as [now e| |nowId nowTs rnd p|p| |c|w| ]; simpl; try done.
    - apply handleRemoteDrawing_silent.
    - unfold emit. by rewrite Hs.
    - unfold emit. by rewrite Hs.
    - unfold draw, emit. rewrite Hs.
      by destruct (isDrawing st0), (currentStroke st0).
    - unfold stopDrawing, emit. rewrite Hs.
      by destruct (isDrawing st0), (currentStroke st0).
    - unfold emit. by rewrite Hs. }
  revert st. induction ops as [|op ops IH]; intros st; [done|].
  rewrite !run_cons. cbn [fst snd]. rewrite <-Hstate.
  destruct (IH (step env op st).1) as [IH1 IH2]. split; [exact IH1|].
  intros Hs. by rewrite (Hquiet Hs), (IH2 Hs).
Qed.

Lemma state_ignores_socket_witness :
  (run {| canvas := true; socket := false |}
     [press 10 10 "abc" Sample.p00; move Sample.p55; release] initial).1
  = (run Sample.env
       [press 10 10 "abc" Sample.p00; move Sample.p55; release] initial).1
  ∧ (run {| canvas := true; socket := false |}
       [press 10 10 "abc" Sample.p00; move Sample.p55; release] initial).2
    = [].
Proof.
  destruct (state_ignores_socket {| canvas := true; socket := false |}
              Sample.env
              [press 10 10 "abc" Sample.p00; move Sample.p55; release]
              initial eq_refl) as [Hstate Hquiet].
  split; [exact Hstate | exact (Hquiet eq_refl)].
Defined.












End WhiteboardRuns.

(** ** The chat panel as a whole *)

Section ChatFurther.

Import Chat.

Implicit Types (env : Env) (st : State) (message : Message.t).

Lemma known_spec id (l : list User.t) :
  known id l = true ↔ ∃ v, v ∈ l ∧ User.id v = id.
Proof.
  unfold known. destruct (List.find _ l) as [v|] eqn:Hf.
  - apply find_some in Hf as [Hin Hid]. split; [|done]. intros _.
    exists v. split; [by apply list_elem_of_In|].
    by apply bool_decide_eq_true_1 in Hid.
  - split; [done|]. intros (v & Hin & Hid). exfalso.
    pose proof (find_none _ _ Hf v (proj1 (list_elem_of_In _ _) Hin)) as Hn.
    simpl in Hn. by rewrite bool_decide_eq_true_2 in Hn.
Qed.

(** X10: no event but [recent_messages] removes or reorders entries of the
    log: the log before the event is a prefix of the log after it. *)
Theorem log_only_grows nowId nowTs ev st :
  (∀ l, ev ≠ recent_messages l) →
  messages st `prefix_of` messages (receive nowId nowTs ev st).
Proof.
  intros Hev. destruct ev as [m|u|u|l|l]; simpl.
  - by eexists.
  - by eexists.
  - unfold handleUserLeft. destruct (known (User.id u) (users st)); simpl.
    + by eexists.
    + done.
  - done.
  - by destruct (Hev l).
Qed.

Lemma log_only_grows_witness :
  messages Sample.chat1
  `prefix_of` messages (receive 10 11 (user_left Sample.bob) Sample.chat1).
Proof.
  apply (log_only_grows 10 11 (user_left Sample.bob) Sample.chat1).
  intros l. discriminate.
Defined.

(** X11: the join and leave events keep the ids of the known users
    distinct: a user who joins again is not listed twice. *)
Theorem known_ids_stay_distinct nowId nowTs ev st :
  (∀ l, ev ≠ users_list l) →
  NoDup (User.id <$> users st) →
  NoDup (User.id <$> users (receive nowId nowTs ev st)).
Proof.
  intros Hev Hnd. destruct ev as [m|u|u|l|l]; simpl; try done.
  - unfold handleUserJoined. simpl.
    destruct (known (User.id u) (users st)) eqn:Hk.
    + by rewrite setOnline_ids.
    + rewrite fmap_app. apply NoDup_app. split; [done|]. split.
      * intros i Hi Hu. apply list_elem_of_singleton in Hu. subst i.
        apply list_elem_of_fmap in Hi as (v & Hid & Hv).
        by destruct (known_false _ _ _ Hk Hv).
      * apply NoDup_singleton.
  - unfold handleUserLeft. destruct (known (User.id u) (users st)); [|done].
    simpl. by rewrite setOnline_ids.
  - by destruct (Hev l).
Qed.

Lemma known_ids_stay_distinct_witness :
  NoDup (User.id <$> users (receive 10 11 (user_joined Sample.ann) Sample.chat1)).
Proof.
  apply (known_ids_stay_distinct 10 11 (user_joined Sample.ann) Sample.chat1).
  - intros l. discriminate.
  - compute_done.
Defined.

(** X12: a join followed by the leave of the same user appends the join
    announcement and then one leave announcement for each run of the updater
    given to [setUsers] (one in a production render, two in development
    under StrictMode), and leaves the user known and offline; the handler
    with the updater run once is [handleUserLeft]. *)
Theorem join_then_leave n1 n2 (runs : list (Z * Z)) (user : User.t) st :
  let st' := handleUserLeftRuns runs user (handleUserJoined n1 n2 user st) in
  messages st'
  = messages st
    ++ systemMessage n1 n2 (User.name user +:+ " joined the chat")
       :: ((λ now : Z * Z,
              systemMessage now.1 now.2 (User.name user +:+ " left the chat"))
           <$> runs)
  ∧ User.id user ∈ User.id <$> users st'
  ∧ (∀ v, v ∈ users st' → User.id v = User.id user → User.isOnline v = false)
  ∧ (∀ n3 n4 st0,
       handleUserLeft n3 n4 user st0 = handleUserLeftRuns [(n3, n4)] user st0).
Proof.
  intros st'. unfold st', handleUserLeftRuns.
  set (st1 := handleUserJoined n1 n2 user st).
  assert (known (User.id user) (users st1) = true) as Hk.
  { apply known_spec. unfold st1, handleUserJoined. simpl.
    destruct (known (User.id user) (users st)) eqn:Hk0.
    - apply known_spec in Hk0 as (v & Hv & Hid).
      exists (setOnline (User.id user) true v).
      split; [by apply list_elem_of_fmap_2|]. by rewrite setOnline_id.
    - exists user. split; [|done]. apply elem_of_app. right. by left. }
  rewrite Hk. simpl. split; [by rewrite <-app_assoc|]. split; [|split].
  - rewrite setOnline_ids. apply known_spec in Hk as (v & Hv & Hid).
    apply list_elem_of_fmap. exists v. split; [done | exact Hv].
  - intros v Hv Hid. apply list_elem_of_fmap in Hv as (v0 & -> & _).
    rewrite setOnline_id in Hid. unfold setOnline. by rewrite decide_True.
  - intros n3 n4 st0. unfold handleUserLeft.
    by destruct (known (User.id user) (users st0)).
Qed.

(** X13: when a known user joins again, no entry is added and the names
    listed stay those first announced, whatever name the event carries; the
    entries of that user are online afterwards. *)
Theorem rejoin_keeps_entries nowId nowTs (user : User.t) st :
  known (User.id user) (users st) = true →
  let st' := handleUserJoined nowId nowTs user st in
  User.id <$> users st' = User.id <$> users st
  ∧ User.name <$> users st' = User.name <$> users st
  ∧ (∀ v, v ∈ users st' → User.id v = User.id user → User.isOnline v = true).
Proof.
  intros Hk st'. unfold st', handleUserJoined. simpl. rewrite Hk.
  split; [apply setOnline_ids|]. split.
  - rewrite <-list_fmap_compose. apply list_fmap_ext. intros i u _. simpl.
    unfold setOnline. by case_decide.
  - intros v Hv Hid. apply list_elem_of_fmap in Hv as (v0 & -> & _).
    rewrite setOnline_id in Hid. unfold setOnline. by rewrite decide_True.
Qed.

Lemma rejoin_keeps_entries_witness :
  User.name <$>
    users (handleUserJoined 10 11 (User.mk "u1" "Anna" true) Sample.chat1)
  = ["Ann"; "Bob"].
Proof.
  apply (rejoin_keeps_entries 10 11 (User.mk "u1" "Anna" true) Sample.chat1).
  reflexivity.
Defined.

Lemma handleDeleteMessage_confirmed_requests env message st :
  isSystem (Message.type message) = false →
  confirm env deletePrompt = true →
  requestsOf (handleDeleteMessage env message st).2
  = (deleteRequest env message).1.
Proof.
  intros Hsys Hconf.
  rewrite (handleDeleteMessage_confirmed env message st Hsys Hconf).
  destruct (deleteRequest env message).2; simpl.
  - apply requestsOf_http.
  - unfold requestsOf. rewrite omap_app. simpl.
    fold (requestsOf (http <$> (deleteRequest env message).1)).
    by rewrite requestsOf_http, app_nil_r.
Qed.

(** X14: once the user has confirmed and the request has resolved, the log
    holds no entry with the id of the deleted message, every copy of it
    being removed, and holds the other entries in their order; deleting the
    same message again leaves that state as it is. *)
Theorem delete_removes_every_copy env message st :
  isSystem (Message.type message) = false →
  confirm env deletePrompt = true →
  (deleteRequest env message).2 = Api.resolved →
  let r := handleDeleteMessage env message st in
  (∀ m, m ∈ messages r.1
        ↔ m ∈ messages st ∧ Message.id m ≠ Message.id message)
  ∧ messages r.1 `sublist_of` messages st
  ∧ (handleDeleteMessage env message r.1).1 = r.1.
Proof.
  intros Hsys Hconf Hres r. unfold r.
  rewrite !(handleDeleteMessage_confirmed env message _ Hsys Hconf), Hres.
  simpl. split; [|split].
  - intros m. rewrite list_elem_of_filter. tauto.
  - apply sublist_filter.
  - unfold setMessages. simpl. f_equal.
    by apply list_filter_filter_l.
Qed.

Lemma delete_removes_every_copy_witness :
  messages
    (handleDeleteMessage Sample.chatEnv Sample.m1
       {| messages := [Sample.m1; Sample.f1; Sample.m1];
          users := []; currentUser := Some Sample.ann |}).1
  `sublist_of` [Sample.m1; Sample.f1; Sample.m1].
Proof.
  apply (delete_removes_every_copy Sample.chatEnv Sample.m1
           {| messages := [Sample.m1; Sample.f1; Sample.m1];
              users := []; currentUser := Some Sample.ann |});
    reflexivity.
Defined.

(** X15: a message the user sends is dropped, with no emission, no change
    of state and no notice, exactly when the component has no current user
    or the service holds no socket. *)
Theorem send_is_dropped_without_user_or_socket env nowId nowTs rnd content st :
  (handleSendMessage env nowId nowTs rnd content st).2 = []
  ↔ currentUser st = None ∨ SocketService.socket (service env) = None.
Proof.
  unfold handleSendMessage, sendMessage, SocketService.sendMessage.
  destruct (currentUser st) as [cu|]; simpl; [|split; [by left|done]].
  destruct (SocketService.socket (service env)); simpl.
  - split; [done|]. by intros [|].
  - split; [by right|done].
Qed.

(** X16: with a current user, uploading a file makes the one upload
    request, leaves the log and the users as they were and the uploading
    flag lowered; when the backend accepts the upload, the only other effect
    is the [chat_message] emission, if the service holds a socket, of a file
    message built from the result; otherwise nothing is emitted and the
    user is told of the failure. *)
Theorem upload_emits_file_message_or_alerts
    env post nowId nowTs rnd file st up cu :
  currentUser st = Some cu →
  let url := BACKEND_URL env +:+ "/upload" in
  let r := handleFileUpload env post nowId nowTs rnd file st up in
  r.1.1 = st
  ∧ UseFileUpload.isUploading r.1.2 = false
  ∧ requestsOf r.2 = [Api.request "POST" url]
  ∧ (∀ t result,
       post url file = Api.upload_response true t (Api.parsed result) →
       r.2
       = http (Api.request "POST" url)
         :: (socket_emit <$>
               SocketService.sendMessage (service env)
                 (fileMessage nowId nowTs rnd (User.name cu) result)))
  ∧ ((∀ t result,
        post url file ≠ Api.upload_response true t (Api.parsed result)) →
     r.2
     = [http (Api.request "POST" url);
        alert "Failed to upload file. Please try again."]).
Proof.
  intros Hcu url r. unfold r, handleFileUpload, UseFileUpload.upload,
    Api.uploadFile. rewrite Hcu. fold url.
  destruct (post url file) as [[] t [result|msg]|msg] eqn:Hpost; simpl.
  - split; [done|]. split; [done|]. split.
    { unfold sendMessage, SocketService.sendMessage.
      by destruct (SocketService.socket (service env)). }
    split; [|intros Hno; by destruct (Hno t result)].
    intros t' result' [= _ <-]. done.
  - split; [done|]. split; [done|]. split; [done|]. split; [done|]. done.
  - split; [done|]. split; [done|]. split; [done|]. split; [done|]. done.
  - split; [done|]. split; [done|]. split; [done|]. split; [done|]. done.
  - split; [done|]. split; [done|]. split; [done|]. split; [done|]. done.
Qed.

Lemma upload_emits_file_message_or_alerts_witness :
  (handleFileUpload Sample.chatEnv Sample.postOk 10 11 "abc" Sample.file_a
     Sample.chat0 UseFileUpload.initial).2
  = [http (Api.request "POST" "http://localhost:8000/upload");
     socket_emit
       (SocketService.emit_chat_message 0
          (Message.mk "file_10_abc" type_file "https://x/f1" "Ann" 11
             (Some "a.pdf") (Some 100) (Some "application/pdf")
             (Some "https://x/f1") (Some "f1")))]
  ∧ (handleFileUpload Sample.chatEnv Sample.postFailing 10 11 "abc"
       Sample.file_a Sample.chat0 UseFileUpload.initial).2
    = [http (Api.request "POST" "http://localhost:8000/upload");
       alert "Failed to upload file. Please try again."].
Proof.
  split.
  - apply (proj1 (proj2 (proj2 (proj2
             (upload_emits_file_message_or_alerts Sample.chatEnv Sample.postOk
                10 11 "abc" Sample.file_a Sample.chat0 UseFileUpload.initial
                Sample.ann eq_refl)))) "OK" Sample.upload_f1).
    reflexivity.
  - apply (proj2 (proj2 (proj2 (proj2
             (upload_emits_file_message_or_alerts Sample.chatEnv
                Sample.postFailing 10 11 "abc" Sample.file_a Sample.chat0
                UseFileUpload.initial Sample.ann eq_refl))))).
    intros t result. discriminate.
Defined.

(** X17: a file message built from an upload result with a non-empty
    [file_id] is deleted, once the user confirms, by the one request
    [DELETE /files/{file_id}]. *)
Theorem uploaded_file_is_deleted_as_file
    env nowId nowTs rnd sender (result : FileUploadResult.t) st :
  Js.truthy_string (FileUploadResult.file_id result) = true →
  confirm env deletePrompt = true →
  requestsOf
    (handleDeleteMessage env (fileMessage nowId nowTs rnd sender result) st).2
  = [Api.request "DELETE"
       (BACKEND_URL env +:+ "/files/" +:+ FileUploadResult.file_id result)].
Proof.
  intros Hid Hconf.
  rewrite handleDeleteMessage_confirmed_requests by done.
  by apply deleteRequest_file.
Qed.

Lemma uploaded_file_is_deleted_as_file_witness :
  requestsOf
    (handleDeleteMessage Sample.chatEnv
       (fileMessage 10 11 "abc" "Ann" Sample.upload_f1) Sample.chat1).2
  = [Api.request "DELETE" "http://localhost:8000/files/f1"].
Proof.
  apply (uploaded_file_is_deleted_as_file Sample.chatEnv 10 11 "abc" "Ann"
           Sample.upload_f1 Sample.chat1); reflexivity.
Defined.

(** X18: [handleDeleteFile] does nothing at all, asking nothing and
    requesting nothing, for a message that is not a file message with a
    non-empty [fileId]; for one that is, and with both questions answered
    yes, it leaves the same state and makes the same request as
    [handleDeleteMessage]. *)
Theorem delete_file_handler_agrees env message st :
  (isFile (Message.type message)
   && Js.truthy_opt Js.truthy_string (Message.fileId message) = false →
   handleDeleteFile env message st = (st, []))
  ∧ (isFile (Message.type message)
     && Js.truthy_opt Js.truthy_string (Message.fileId message) = true →
     confirm env (deleteFilePrompt message) = true →
     confirm env deletePrompt = true →
     (handleDeleteFile env message st).1 = (handleDeleteMessage env message st).1
     ∧ requestsOf (handleDeleteFile env message st).2
       = requestsOf (handleDeleteMessage env message st).2).
Proof.
  unfold handleDeleteFile. split.
  - destruct (Message.fileId message) as [fid|]; [|done]. simpl.
    intros Hno. apply andb_false_iff in Hno as [->| ->]; [done|].
    by rewrite orb_true_r.
  - intros Hfile Hc1 Hc2.
    destruct (Message.fileId message) as [fid|] eqn:Hfid;
      [|by rewrite andb_false_r in Hfile].
    simpl in Hfile. apply andb_prop in Hfile as [Ht Hid].
    assert (isSystem (Message.type message) = false) as Hsys
      by (by destruct (Message.type message)).
    rewrite (handleDeleteMessage_confirmed env message st Hsys Hc2).
    unfold deleteRequest. rewrite Hfid, Ht, Hid, Hc1. simpl.
    unfold Api.deleteFile, Api.deleteAt. simpl.
    by destruct (fetch env "DELETE" _) as [[] t|msg].
Qed.

Lemma delete_file_handler_agrees_witness :
  handleDeleteFile Sample.chatEnv Sample.f_noid Sample.chat1
  = (Sample.chat1, [])
  ∧ (handleDeleteFile Sample.chatEnv Sample.f1 Sample.chat1).1
    = (handleDeleteMessage Sample.chatEnv Sample.f1 Sample.chat1).1.
Proof.
  split.
  - apply (proj1 (delete_file_handler_agrees Sample.chatEnv Sample.f_noid
                    Sample.chat1)).
    reflexivity.
  - apply (proj2 (delete_file_handler_agrees Sample.chatEnv Sample.f1
                    Sample.chat1)); reflexivity.
Defined.

(** X19: the delete button of a message item has an effect only on a
    message of the current user that is not a system message, and only once
    the user has confirmed: in every other case nothing is requested and
    the state is left as it is. *)
Theorem only_own_messages_are_deleted env cu message st :
  MessageItem.handleDelete env cu message st ≠ (st, []) →
  cu = Some (Message.sender message)
  ∧ Message.type message ≠ type_system
  ∧ confirm env deletePrompt = true.
Proof.
  unfold MessageItem.handleDelete. intros Hr.
  case_bool_decide as Hown; simpl in Hr; [|done].
  destruct (isSystem (Message.type message)) eqn:Hsys; simpl in Hr; [done|].
  split; [done|]. split; [intros Ht; by rewrite Ht in Hsys|].
  destruct (confirm env deletePrompt) eqn:Hconf; [done|].
  destruct Hr. apply handleDeleteMessage_declined. by right.
Qed.

Lemma only_own_messages_are_deleted_witness :
  Some "Ann" = Some (Message.sender Sample.m1)
  ∧ Message.type Sample.m1 ≠ type_system
  ∧ confirm Sample.chatEnv deletePrompt = true.
Proof.
  apply (only_own_messages_are_deleted Sample.chatEnv (Some "Ann") Sample.m1
           Sample.chat1).
  intros H. apply (f_equal snd) in H. vm_compute in H. discriminate H.
Defined.

(** X20: once the hook has a socket and the service holds one, the mount
    effect sets an online current user, leaves the log and the known users
    as they are, and emits one [join_chat] with that user's id and name;
    every text message sent afterwards carries that name as its sender. *)
Theorem mount_announces_current_user env sock r rnd n st :
  SocketService.socket (service env) = Some r →
  let m := mount env (Some sock) rnd n st in
  ∃ u,
    currentUser m.1 = Some u
    ∧ User.isOnline u = true
    ∧ m.2 = [socket_emit
               (SocketService.emit_join_chat r (User.id u) (User.name u))]
    ∧ messages m.1 = messages st
    ∧ users m.1 = users st
    ∧ ∀ nowId nowTs rnd' content,
        ∃ msg,
          (handleSendMessage env nowId nowTs rnd' content m.1).2
          = [socket_emit (SocketService.emit_chat_message r msg)]
          ∧ Message.sender msg = User.name u
          ∧ Message.content msg = content.
Proof.
  intros Hr m. unfold m, mount, SocketService.joinChat. rewrite Hr.
  eexists. split; [done|]. split; [done|]. split; [done|].
  split; [done|]. split; [done|].
  intros nowId nowTs rnd' content.
  unfold handleSendMessage, sendMessage, SocketService.sendMessage.
  simpl. rewrite Hr. by eexists.
Qed.

Lemma mount_announces_current_user_witness :
  (mount Sample.chatEnv (Some 0%nat) "k3x9q2w1z" 42 initial).2
  = [socket_emit (SocketService.emit_join_chat 0 "user_k3x9q2w1z" "User 42")].
Proof.
  destruct (mount_announces_current_user Sample.chatEnv 0%nat 0%nat
              "k3x9q2w1z" 42 initial eq_refl)
    as (u & Hu & _ & Hem & _).
  injection Hu as <-. exact Hem.
Defined.

End ChatFurther.

(** ** The socket service over time *)

Section ConnectionFurther.

Import SocketService.

Lemma step_keeps_made_socket op sw :
  holdsMadeSocket sw →
  holdsMadeSocket (step op sw) ∧ (length sw.2 ≤ length (step op sw).2)%nat.
Proof.
  destruct sw as [s w]. unfold holdsMadeSocket. simpl. intros Hv.
  destruct op as [| |r0]; simpl.
  - unfold connect. destruct (socket s) as [r|] eqn:Hs.
    + destruct (connected w s); simpl.
      * split; [|done]. by rewrite Hs.
      * split; [|rewrite length_app; simpl; lia].
        intros r' [= <-]. rewrite length_app. simpl. lia.
    + simpl. split; [|rewrite length_app; simpl; lia].
      intros r' [= <-]. rewrite length_app. simpl. lia.
  - unfold disconnect. destruct (socket s) as [r|] eqn:Hs; simpl.
    + split; [done|]. by rewrite length_insert.
    + split; [|done]. by rewrite Hs.
  - unfold established. rewrite length_insert. split; [exact Hv|done].
Qed.

(** X22: through any sequence of [connect] and [disconnect] calls and of
    connection events, the socket the service holds is one of the sockets
    made, and no socket made is ever forgotten by the transport. *)
Theorem service_holds_a_made_socket ops sw :
  holdsMadeSocket sw →
  holdsMadeSocket (run ops sw) ∧ (length sw.2 ≤ length (run ops sw).2)%nat.
Proof.
  revert sw. induction ops as [|op ops IH]; intros sw Hv; [done|].
  destruct (step_keeps_made_socket op sw Hv) as [Hv1 Hl1].
  destruct (IH (step op sw) Hv1) as [Hv2 Hl2].
  split; [exact Hv2|]. simpl. etrans; [exact Hl1 | exact Hl2].
Qed.

Lemma service_holds_a_made_socket_witness :
  holdsMadeSocket
    (run [call_connect; transport_connect 0; call_disconnect; call_connect]
       (initial, [])).
Proof.
  apply (service_holds_a_made_socket
           [call_connect; transport_connect 0; call_disconnect; call_connect]
           (initial, [])).
  intros r Hr. discriminate Hr.
Defined.

(** X23: [disconnect] closes the socket held and forgets it: joining and
    sending then emit nothing, a second [disconnect] changes nothing, and
    the next [connect] makes a new socket, never the one closed. *)
Theorem disconnect_forgets_the_socket s (w : Sockets) :
  holdsMadeSocket (s, w) →
  let d := disconnect s w in
  let c := connect d.1 d.2 in
  (∀ userId userName, joinChat d.1 userId userName = [])
  ∧ (∀ message, sendMessage d.1 message = [])
  ∧ disconnect d.1 d.2 = d
  ∧ (∀ r, socket s = Some r → d.2 !! r = Some false ∧ c.1.1 ≠ r)
  ∧ c.1.1 = length w
  ∧ socket c.1.2 = Some c.1.1.
Proof.
  unfold holdsMadeSocket. intros Hv. simpl in Hv. unfold disconnect.
  destruct (socket s) as [r|] eqn:Hs; simpl.
  - split; [done|]. split; [done|]. split; [done|]. split.
    + intros r' [= <-]. specialize (Hv r eq_refl).
      rewrite list_lookup_insert_eq by done.
      split; [done|]. rewrite length_insert. lia.
    + by rewrite length_insert.
  - unfold joinChat, sendMessage, connect. rewrite Hs. simpl.
    split; [done|]. split; [done|]. split; [by destruct s; simpl in *; subst|].
    split; [done|]. done.
Qed.

Lemma disconnect_forgets_the_socket_witness :
  sendMessage (disconnect {| socket := Some 0%nat |} [true]).1 Sample.m1 = []
  ∧ (connect (disconnect {| socket := Some 0%nat |} [true]).1
       (disconnect {| socket := Some 0%nat |} [true]).2).1.1 = 1%nat.
Proof.
  destruct (disconnect_forgets_the_socket {| socket := Some 0%nat |} [true])
    as (_ & Hsend & _ & _ & Hnew & _).
  - intros r [= <-]. simpl. lia.
  - split; [apply Hsend | exact Hnew].
Defined.

End ConnectionFurther.

(** ** The list of online users *)

Section Presence.

Import UserList.


(** X25: after a [user_left] event for a user, no avatar shown is that
    user's, whether the user was known or not. *)
Theorem left_user_has_no_avatar nowId nowTs (user : User.t) st (v : User.t) :
  v ∈ avatars (Chat.users (Chat.receive nowId nowTs (Chat.user_left user) st)) →
  User.id v ≠ User.id user.
Proof.
  unfold avatars. intros Hv%subseteq_take.
  apply list_elem_of_filter in Hv as [Hon Hv]. simpl in Hv.
  unfold Chat.handleUserLeft in Hv.
  destruct (Chat.known (User.id user) (Chat.users st)) eqn:Hk; simpl in Hv.
  - apply list_elem_of_fmap in Hv as (v0 & -> & _).
    unfold Chat.setOnline in *. case_decide as Hid; [done|]. done.
  - by apply (known_false _ _ _ Hk).
Qed.

Lemma left_user_has_no_avatar_witness :
  User.id Sample.bob ≠ User.id Sample.ann.
Proof.
  apply (left_user_has_no_avatar 10 11 Sample.ann Sample.chat1 Sample.bob).
  vm_compute. apply list_elem_of_here.
Defined.

End Presence.

(** ** The single-file chat panel *)

Section Legacy.

Import LegacyChat.

(** X26: with a socket and a current user, a file of more than
    [10 * 1024 * 1024] bytes is turned down with a notice, before any request
    and with the state untouched; a file of that size or less is uploaded by
    the one request, after which the uploading flag is lowered. *)
Theorem upload_size_limit env nowId nowTs rnd (file : File.t) st sock cu :
  socket st = Some sock →
  currentUser st = Some cu →
  let r := handleFileUpload env nowId nowTs rnd (Some file) st in
  (10485760 < File.size file →
   r = (st, [alert "File size must be less than 10MB"]))
  ∧ (File.size file ≤ 10485760 →
     requestsOf r.2
     = [Api.request "POST"
          (Constants.BACKEND_URL (NEXT_PUBLIC_BACKEND_URL env) +:+ "/upload")]
     ∧ isUploading r.1 = false
     ∧ messages r.1 = messages st).
Proof.
  intros Hs Hcu r. unfold r, handleFileUpload. rewrite Hs, Hcu.
  change maxSize with 10485760. split.
  - intros Hbig. by rewrite decide_True.
  - intros Hok. rewrite decide_False by lia.
    unfold Api.uploadFile.
    by destruct (post env _ file) as [[] t [result|msg]|msg].
Qed.

Lemma upload_size_limit_witness :
  handleFileUpload Sample.legacyEnv 10 11 "abc" (Some Sample.file_over)
    Sample.legacy1
  = (Sample.legacy1, [alert "File size must be less than 10MB"])
  ∧ requestsOf
      (handleFileUpload Sample.legacyEnv 10 11 "abc" (Some Sample.file_10MB)
         Sample.legacy1).2
    = [Api.request "POST" "http://localhost:8000/upload"].
Proof.
  split.
  - apply (proj1 (upload_size_limit Sample.legacyEnv 10 11 "abc"
                    Sample.file_over Sample.legacy1 0%nat Sample.ann
                    eq_refl eq_refl)).
    reflexivity.
  - apply (proj2 (upload_size_limit Sample.legacyEnv 10 11 "abc"
                    Sample.file_10MB Sample.legacy1 0%nat Sample.ann
                    eq_refl eq_refl)).
    vm_compute. discriminate.
Defined.

Lemma deleteAndFilter_requests env url failure message st :
  requestsOf (deleteAndFilter env url failure message st).2
  = [Api.request "DELETE" url].
Proof.
  unfold deleteAndFilter. by destruct (fetch env "DELETE" url) as [[] t|msg].
Qed.

(** X27: the delete button of the single-file panel never sends a file
    message to the message endpoint, nor any other message to the file
    endpoint: a message-delete request is made only for a text message and
    carries its id, a file-delete request only for a file message and
    carries its non-empty [fileId]; a file message without one cannot be
    deleted at all. *)
Theorem delete_button_keeps_endpoints_apart env message st :
  let B := Constants.BACKEND_URL (NEXT_PUBLIC_BACKEND_URL env) in
  let r := clickDelete env message st in
  (∀ x,
     Api.request "DELETE" (B +:+ "/messages/" +:+ x) ∈ requestsOf r.2 →
     x = Message.id message ∧ Message.type message = type_text)
  ∧ (∀ x,
       Api.request "DELETE" (B +:+ "/files/" +:+ x) ∈ requestsOf r.2 →
       Message.type message = type_file
       ∧ Message.fileId message = Some x
       ∧ Js.truthy_string x = true)
  ∧ (Message.type message = type_file →
     Js.truthy_opt Js.truthy_string (Message.fileId message) = false →
     r = (st, [])).
Proof.
  intros B r. unfold r, clickDelete.
  destruct (bool_decide _ && negb _) eqn:Hshown.
  2:{ split; [|split]; try done; intros x Hx; by apply not_elem_of_nil in Hx. }
  apply andb_prop in Hshown as [_ Hsys].
  destruct (Message.type message) eqn:Hty; simpl in *; try done.
  - unfold deleteMessage. rewrite Hty. simpl.
    destruct (confirm env Chat.deletePrompt); simpl.
    + rewrite deleteAndFilter_requests. fold B.
      split; [|split]; [| |done].
      * intros x Hx. apply list_elem_of_singleton in Hx. injection Hx as Hx.
        do 2 apply (inj (String.app _)) in Hx. done.
      * intros x Hx. apply list_elem_of_singleton in Hx. injection Hx as Hx.
        apply (inj (String.app _)) in Hx. discriminate Hx.
    + split; [|split]; try done; intros x Hx; by apply not_elem_of_nil in Hx.
  - unfold deleteFile. rewrite Hty. simpl.
    destruct (Message.fileId message) as [fid|] eqn:Hfid; simpl.
    2:{ split; [|split]; try done; intros x Hx; by apply not_elem_of_nil in Hx. }
    destruct (Js.truthy_string fid) eqn:Hid; simpl.
    2:{ split; [|split]; try done; intros x Hx; by apply not_elem_of_nil in Hx. }
    destruct (confirm env (Chat.deleteFilePrompt message)); simpl.
    + rewrite deleteAndFilter_requests. fold B.
      split; [|split]; [| |done].
      * intros x Hx. apply list_elem_of_singleton in Hx. injection Hx as Hx.
        apply (inj (String.app _)) in Hx. discriminate Hx.
      * intros x Hx. apply list_elem_of_singleton in Hx. injection Hx as Hx.
        do 2 apply (inj (String.app _)) in Hx. by subst x.
    + split; [|split]; try done; intros x Hx; by apply not_elem_of_nil in Hx.
Qed.

Lemma delete_button_keeps_endpoints_apart_witness :
  clickDelete Sample.legacyEnv Sample.f_noid Sample.legacy1
  = (Sample.legacy1, []).
Proof.
  apply (proj2 (proj2 (delete_button_keeps_endpoints_apart Sample.legacyEnv
                         Sample.f_noid Sample.legacy1))); reflexivity.
Defined.

End Legacy.
